(** * Bullseye Range: a shallow embedding of [examples/bullseye/bullseye-range.js]

    The gameplay core of the archery scene (weather particles, Lissajous
    targets, arrow ballistics, swept collision and scoring, the session
    orchestrator and its input handlers) is transcribed function by
    function.  JavaScript numbers are IEEE 754 binary64 values, here the
    kernel's primitive [float]; integer counters that the code only
    increments by integers ([score], [shots_taken], [streak]) are [Z];
    array lengths and loop counts are [nat].  An uncaught [TypeError]
    (reading a property of [undefined]) is the result [None]. *)

From Stdlib Require Import Floats ZArith List String Bool Arith Lia.
Import ListNotations.

Set Warnings "-inexact-float".

Local Open Scope float_scope.
Local Open Scope Z_scope.

(* ================================================================== *)
(** ** JavaScript numbers and the [Math] object *)
(* ================================================================== *)

Module JS.

Definition number := float.

(** [x] is the value [-0]. *)
Definition is_neg_zero (x : number) : bool :=
  PrimFloat.is_zero x && PrimFloat.get_sign x.

(** [Math.min(x, y)]: [NaN] when an argument is [NaN]; [-0] counts as
    smaller than [+0]. *)
Definition Math_min (x y : number) : number :=
  if PrimFloat.is_nan x || PrimFloat.is_nan y then PrimFloat.nan
  else if (x <? y)%float then x
  else if (y <? x)%float then y
  else if is_neg_zero y then y else x.

(** [Math.max(x, y)]: [NaN] when an argument is [NaN]; [+0] counts as
    larger than [-0]. *)
Definition Math_max (x y : number) : number :=
  if PrimFloat.is_nan x || PrimFloat.is_nan y then PrimFloat.nan
  else if (y <? x)%float then x
  else if (x <? y)%float then y
  else if is_neg_zero x then y else x.

Definition Math_abs (x : number) : number := PrimFloat.abs x.
Definition Math_sqrt (x : number) : number := PrimFloat.sqrt x.
Definition Math_PI : number := 3.141592653589793%float.

(** [Math.random()] draws from a process-wide source; the source is made
    explicit as an infinite stream of samples, consumed front to back. *)
Definition RandomSource := nat -> number.

Definition Math_random (r : RandomSource) : number * RandomSource :=
  (r 0%nat, fun n => r (S n)).

End JS.
Import JS.

(* ================================================================== *)
(** ** Vectors and colours of the graphics library *)
(* ================================================================== *)

(** Modelled from the spec: [vec3] and [color] come from ['../common.js']
    (the tiny-graphics library), which is not part of the sources at hand.
    The spec speaks of 3D positions, velocities and a wind vector with
    componentwise arithmetic; a vector is three numbers, [plus], [minus]
    and [times] act per component, [norm] is the Euclidean length and
    [normalized] scales by the reciprocal of the length. *)
Record vec3 : Type := Vec3 { v0 : number; v1 : number; v2 : number }.

Record color4 : Type := Color { c_r : number; c_g : number; c_b : number; c_a : number }.

Module V.
Definition plus (a b : vec3) : vec3 :=
  Vec3 (v0 a + v0 b)%float (v1 a + v1 b)%float (v2 a + v2 b)%float.
Definition minus (a b : vec3) : vec3 :=
  Vec3 (v0 a - v0 b)%float (v1 a - v1 b)%float (v2 a - v2 b)%float.
Definition times (a : vec3) (s : number) : vec3 :=
  Vec3 (v0 a * s)%float (v1 a * s)%float (v2 a * s)%float.
Definition dot (a b : vec3) : number :=
  (v0 a * v0 b + v1 a * v1 b + v2 a * v2 b)%float.
Definition norm (a : vec3) : number := Math_sqrt (dot a a).
Definition normalized (a : vec3) : vec3 := times a (1 / norm a)%float.
End V.

(* ================================================================== *)
(** ** Tunable constants *)
(* ================================================================== *)

Module GAME_CONFIG.
Definition maxShots : Z := 20.
Definition gravity : number := (-15.0)%float.
Definition baseArrowSpeed : number := 60%float.
Definition aimSensitivity : number := 0.04%float.
Definition maxDrawStrength : number := 1.0%float.
Definition drawChargeRate : number := 1.2%float.
Definition playerHeight : number := 2.0%float.
Definition arrowSpawnForward : number := 1.0%float.
Definition dtClamp : number := (1 / 30)%float.
End GAME_CONFIG.

Record ScoringBand : Type := Band { band_frac : number; band_points : Z }.

Definition TARGET_SCORING : list ScoringBand :=
  [ Band 0.2%float 10; Band 0.4%float 8; Band 0.6%float 6;
    Band 0.8%float 4; Band 1.0%float 2 ].

Record ParticleTemplate : Type := Template {
  tpl_life : number * number;
  tpl_speedX : number * number;
  tpl_speedY : number * number;
  tpl_color : color4;
  tpl_scale : vec3
}.

(** [spawnPerFrame] bounds a counting loop and holds 0, 2, 10 or 5: a [nat]. *)
Record WeatherPreset : Type := Preset {
  spawnPerFrame : nat;
  windStrength : number;
  windAngle : number;
  particle : option ParticleTemplate      (* [None] is the source's [null] *)
}.

Module Presets.
Definition clear : WeatherPreset := Preset 0 0%float 0%float None.
Definition wind : WeatherPreset :=
  Preset 2 6.0%float (Math_PI * 0.7)%float
    (Some (Template (3%float, 5%float) (15%float, 20%float) ((-2)%float, (-1)%float)
             (Color 0.8%float 0.8%float 0.7%float 0.3%float)
             (Vec3 0.1%float 0.1%float 0.1%float))).
Definition rain : WeatherPreset :=
  Preset 10 2.0%float (Math_PI * 0.3)%float
    (Some (Template (1.0%float, 1.5%float) ((-1)%float, 1%float) ((-40)%float, (-30)%float)
             (Color 0.6%float 0.7%float 0.9%float 0.6%float)
             (Vec3 0.05%float 0.6%float 0.05%float))).
Definition snow : WeatherPreset :=
  Preset 5 1.0%float (Math_PI * 0.85)%float
    (Some (Template (5%float, 7%float) ((-1)%float, 1%float) ((-6)%float, (-4)%float)
             (Color 0.9%float 0.9%float 1.0%float 0.8%float)
             (Vec3 0.12%float 0.12%float 0.12%float))).
End Presets.

(** [WEATHER_PRESETS[name]]: the object used as a table keyed by the preset
    name; a key that is absent yields [undefined], here [None]. *)
Definition WEATHER_PRESETS (name : string) : option WeatherPreset :=
  if String.eqb name "clear" then Some Presets.clear
  else if String.eqb name "wind" then Some Presets.wind
  else if String.eqb name "rain" then Some Presets.rain
  else if String.eqb name "snow" then Some Presets.snow
  else None.

(** [randRange(min, max)] *)
Definition randRange (min max : number) (r : RandomSource) : number * RandomSource :=
  let (u, r') := Math_random r in
  ((min + u * (max - min))%float, r').

(* ================================================================== *)
(** ** Effects: uncaught exceptions and the random source *)
(* ================================================================== *)

(** A computation that may throw and may draw random samples. *)
Definition M (A : Type) : Type := RandomSource -> option (A * RandomSource).

Definition ret {A : Type} (a : A) : M A := fun r => Some (a, r).

Definition bind {A B : Type} (m : M A) (k : A -> M B) : M B :=
  fun r => match m r with
           | Some (a, r') => k a r'
           | None => None
           end.

(** A computation that may throw but draws nothing. *)
Definition lift {A : Type} (o : option A) : M A :=
  fun r => match o with
           | Some a => Some (a, r)
           | None => None
           end.

Definition sample (min max : number) : M number :=
  fun r => Some (randRange min max r).

Declare Scope js_scope.
Delimit Scope js_scope with js.
Notation "x <- m ;; k" := (bind m (fun x => k))
  (at level 61, m at next level, right associativity) : js_scope.

(** Exception-only sequencing, for code that draws no samples. *)
Definition obind {A B : Type} (o : option A) (k : A -> option B) : option B :=
  match o with
  | Some a => k a
  | None => None
  end.
Notation "x <?- o ;; k" := (obind o (fun x => k))
  (at level 61, o at next level, right associativity) : js_scope.

(* ================================================================== *)
(** ** Weather system *)
(* ================================================================== *)

Record Particle : Type := mkParticle {
  p_pos : vec3;
  p_vel : vec3;
  p_life : number;
  p_age : number;
  p_color : color4;
  p_scale : vec3
}.

(** The [square] mesh held by the object serves drawing only. *)
Record WeatherSystem : Type := mkWeather {
  particles : list Particle;
  max_particles : nat;
  weather_types : list string;
  current_index : nat
}.

Module Weather.

Local Open Scope js_scope.

(** [constructor()] *)
Definition new : WeatherSystem :=
  {| particles := [];
     max_particles := 400;
     weather_types := ["clear"; "wind"; "rain"; "snow"]%string;
     current_index := 0 |}.

(** [get type()]: an index past the end reads [undefined]. *)
Definition type (w : WeatherSystem) : option string :=
  nth_error (weather_types w) (current_index w).

(** [get preset()]: [WEATHER_PRESETS[undefined]] is [undefined] too. *)
Definition preset (w : WeatherSystem) : option WeatherPreset :=
  match type w with
  | Some name => WEATHER_PRESETS name
  | None => None
  end.

(** [this.type === 'clear'] *)
Definition type_is_clear (w : WeatherSystem) : bool :=
  match type w with
  | Some name => String.eqb name "clear"
  | None => false
  end.

(** [cycle_type()].  The list of types is never empty; the remainder by a
    zero length, a [NaN] index in JavaScript, has no counterpart in [nat]. *)
Definition cycle_type (w : WeatherSystem) : WeatherSystem :=
  let w1 := {| particles := particles w;
               max_particles := max_particles w;
               weather_types := weather_types w;
               current_index :=
                 (current_index w + 1) mod (List.length (weather_types w)) |} in
  if type_is_clear w1
  then {| particles := [];
          max_particles := max_particles w1;
          weather_types := weather_types w1;
          current_index := current_index w1 |}
  else w1.

Definition push_particle (w : WeatherSystem) (p : Particle) : WeatherSystem :=
  {| particles := particles w ++ [p];
     max_particles := max_particles w;
     weather_types := weather_types w;
     current_index := current_index w |}.

(** [spawn_particle()] *)
Definition spawn_particle (w : WeatherSystem) : M WeatherSystem :=
  preset <- lift (preset w) ;;
  match particle preset with
  | None => ret w
  | Some p =>
      if (max_particles w <=? List.length (particles w))%nat then ret w
      else
        x <- sample (-30)%float 30%float ;;
        y <- sample 15%float 20%float ;;
        z <- sample (-80)%float (-20)%float ;;
        vx <- sample (fst (tpl_speedX p)) (snd (tpl_speedX p)) ;;
        vy <- sample (fst (tpl_speedY p)) (snd (tpl_speedY p)) ;;
        life <- sample (fst (tpl_life p)) (snd (tpl_life p)) ;;
        ret (push_particle w
               {| p_pos := Vec3 x y z;
                  p_vel := Vec3 vx vy 0%float;
                  p_life := life;
                  p_age := 0%float;
                  p_color := tpl_color p;
                  p_scale := tpl_scale p |})
  end.

(** [for (let i = 0; i < count; i++) this.spawn_particle();] *)
Fixpoint spawn_loop (count : nat) (w : WeatherSystem) : M WeatherSystem :=
  match count with
  | O => ret w
  | S n => w' <- spawn_particle w ;; spawn_loop n w'
  end.

(** One turn of the ageing loop: [None] when the particle is dropped by
    one of the two [continue]s. *)
Definition age_particle (dt : number) (p : Particle) : option Particle :=
  let age := (p_age p + dt)%float in
  if (p_life p <? age)%float then None
  else
    let pos := V.plus (p_pos p) (V.times (p_vel p) dt) in
    if (v1 pos <? -5)%float then None
    else Some {| p_pos := pos;
                 p_vel := p_vel p;
                 p_life := p_life p;
                 p_age := age;
                 p_color := p_color p;
                 p_scale := p_scale p |}.

Fixpoint age_all (dt : number) (ps : list Particle) : list Particle :=
  match ps with
  | [] => []
  | p :: rest =>
      match age_particle dt p with
      | Some p' => p' :: age_all dt rest
      | None => age_all dt rest
      end
  end.

(** [update(dt)] *)
Definition update (dt : number) (w : WeatherSystem) : M WeatherSystem :=
  preset <- lift (preset w) ;;
  w1 <- spawn_loop (spawnPerFrame preset) w ;;
  ret {| particles := age_all dt (particles w1);
         max_particles := max_particles w1;
         weather_types := weather_types w1;
         current_index := current_index w1 |}.

End Weather.

(* ================================================================== *)
(** ** Moving target (Lissajous) *)
(* ================================================================== *)

(** [Math.sin] and [Math.cos] are implementation-approximated in
    JavaScript; the development is parametric in them. *)
Class Trig : Type := {
  Math_sin : number -> number;
  Math_cos : number -> number
}.

Record Target : Type := mkTarget {
  base_center : vec3;
  radius : number;
  depth : number;
  amp_x : number;
  amp_y : number;
  freq_x : number;
  freq_y : number;
  time : number
}.

Module Target_.

(** [constructor(center, radius, depth, amp_x, amp_y, freq_x, freq_y)] *)
Definition new (center : vec3) (radius depth amp_x amp_y freq_x freq_y : number)
  : Target :=
  mkTarget center radius depth amp_x amp_y freq_x freq_y 0%float.

(** [update(dt)] *)
Definition update (dt : number) (t : Target) : Target :=
  mkTarget (base_center t) (radius t) (depth t) (amp_x t) (amp_y t)
           (freq_x t) (freq_y t) (time t + dt)%float.

(** [get_center()] *)
Definition get_center `{Trig} (t : Target) : vec3 :=
  Vec3 (v0 (base_center t) + amp_x t * Math_sin (time t * freq_x t))%float
       (v1 (base_center t) + amp_y t * Math_sin (time t * freq_y t))%float
       (v2 (base_center t)).

End Target_.

(* ================================================================== *)
(** ** Arrow projectile *)
(* ================================================================== *)

Record Arrow : Type := mkArrow {
  pos : vec3;
  prev_pos : vec3;
  vel : vec3;
  alive : bool;
  stuck : bool
}.

Module Arrow_.

(** [constructor(position, velocity)] *)
Definition new (position velocity : vec3) : Arrow :=
  mkArrow position position velocity true false.

(** [update(dt, gravity, wind_accel)] *)
Definition update (dt gravity : number) (wind_accel : vec3) (a : Arrow) : Arrow :=
  if negb (alive a) || stuck a then a
  else
    let prev := pos a in
    let accel := Vec3 (v0 wind_accel) (gravity + v1 wind_accel)%float (v2 wind_accel) in
    let vel' := V.plus (vel a) (V.times accel dt) in
    let pos' := V.plus (pos a) (V.times vel' dt) in
    mkArrow pos' prev vel'
            (if (v1 pos' <? -2)%float then false else alive a)
            (stuck a).

(** [get_direction()] *)
Definition get_direction (a : Arrow) : vec3 :=
  if (V.norm (vel a) <? 1e-5)%float then Vec3 0%float 0%float (-1)%float
  else V.normalized (vel a).

End Arrow_.

(* ================================================================== *)
(** ** Main scene: the game session *)
(* ================================================================== *)

(** The simulation state of [Bullseye_Range].  Shapes, materials, the
    scoreboard element and the camera serve drawing only and are left out,
    as is the scoreboard flash that a hit of six points or more triggers. *)
Record Session : Type := mkSession {
  score : Z;
  shots_taken : Z;
  max_shots : Z;
  streak : Z;
  aim_yaw : number;
  aim_pitch : number;
  aim_sensitivity : number;
  is_drawing : bool;
  draw_strength : number;
  max_draw_strength : number;
  arrows : list Arrow;
  gravity : number;
  weather : WeatherSystem;
  target_centers : list vec3;
  targets : list Target
}.

Definition with_arrows (s : Session) (l : list Arrow) : Session :=
  mkSession (score s) (shots_taken s) (max_shots s) (streak s) (aim_yaw s)
    (aim_pitch s) (aim_sensitivity s) (is_drawing s) (draw_strength s)
    (max_draw_strength s) l (gravity s) (weather s) (target_centers s) (targets s).

Definition with_weather (s : Session) (w : WeatherSystem) : Session :=
  mkSession (score s) (shots_taken s) (max_shots s) (streak s) (aim_yaw s)
    (aim_pitch s) (aim_sensitivity s) (is_drawing s) (draw_strength s)
    (max_draw_strength s) (arrows s) (gravity s) w (target_centers s) (targets s).

Definition with_targets (s : Session) (ts : list Target) (cs : list vec3) : Session :=
  mkSession (score s) (shots_taken s) (max_shots s) (streak s) (aim_yaw s)
    (aim_pitch s) (aim_sensitivity s) (is_drawing s) (draw_strength s)
    (max_draw_strength s) (arrows s) (gravity s) (weather s) cs ts.

Definition with_aim (s : Session) (yaw pitch : number) : Session :=
  mkSession (score s) (shots_taken s) (max_shots s) (streak s) yaw pitch
    (aim_sensitivity s) (is_drawing s) (draw_strength s)
    (max_draw_strength s) (arrows s) (gravity s) (weather s) (target_centers s)
    (targets s).

Definition with_draw (s : Session) (drawing : bool) (strength : number) : Session :=
  mkSession (score s) (shots_taken s) (max_shots s) (streak s) (aim_yaw s)
    (aim_pitch s) (aim_sensitivity s) drawing strength
    (max_draw_strength s) (arrows s) (gravity s) (weather s) (target_centers s)
    (targets s).

(** The outcome of the collision loop: arrows, [score] and [streak]. *)
Definition with_collisions (s : Session) (l : list Arrow) (sc st : Z) : Session :=
  mkSession sc (shots_taken s) (max_shots s) st (aim_yaw s)
    (aim_pitch s) (aim_sensitivity s) (is_drawing s) (draw_strength s)
    (max_draw_strength s) l (gravity s) (weather s) (target_centers s) (targets s).

(** [score_for_radius_fraction(frac)]: the [for ... of] loop over the bands
    with its early [return]. *)
Fixpoint score_in_bands (frac : number) (bands : list ScoringBand) : Z :=
  match bands with
  | [] => 0
  | band :: rest =>
      if (frac <=? band_frac band)%float then band_points band
      else score_in_bands frac rest
  end.

Definition score_for_radius_fraction (frac : number) : Z :=
  score_in_bands frac TARGET_SCORING.

(** The body of the loop over targets in [resolve_arrow_target_collisions],
    for one arrow and one target, in three parts.  [crossing_point] is the
    swept test against the target's z-plane: [None] for each of the three
    [continue]s, else the point interpolated along the segment from the
    previous to the current position. *)
Definition crossing_point (a : Arrow) (center : vec3) : option vec3 :=
  let z0 := v2 (prev_pos a) in
  let z1 := v2 (pos a) in
  let tz := v2 center in
  let dz := (z1 - z0)%float in
  if (Math_abs dz <? 1e-8)%float then None
  else
    let crossesPlane := ((z0 - tz) * (z1 - tz) <=? 0)%float in
    if negb crossesPlane then None
    else
      let tHit := ((tz - z0) / dz)%float in
      if (tHit <? 0)%float || (1 <? tHit)%float then None
      else
        let segment := V.minus (pos a) (prev_pos a) in
        Some (V.plus (prev_pos a) (V.times segment tHit)).

(** Radial distance on the target face (z is ignored). *)
Definition radial_distance (hit_pos center : vec3) : number :=
  let dx := (v0 hit_pos - v0 center)%float in
  let dy := (v1 hit_pos - v1 center)%float in
  Math_sqrt (dx * dx + dy * dy)%float.

(** [Some (hit_pos, r)] when the plane is crossed and the radial test
    [r <= target.radius] passes. *)
Definition plane_hit (a : Arrow) (center : vec3) (target : Target)
  : option (vec3 * number) :=
  match crossing_point a center with
  | None => None
  | Some hit_pos =>
      let r := radial_distance hit_pos center in
      if (r <=? radius target)%float then Some (hit_pos, r) else None
  end.

(** The hit branch: the arrow sticks a little in front of the target. *)
Definition stick (a : Arrow) (hit_pos : vec3) : Arrow :=
  mkArrow (V.plus hit_pos (Vec3 0%float 0%float 0.2%float)) (prev_pos a)
          (Vec3 0%float 0%float 0%float) (alive a) true.

(** [for (let i = 0; i < this.targets.length; i++)] for one live, flying
    arrow, from index [i] on; [ts] are the targets from index [i].  Reading
    [center[2]] throws when [this.target_centers[i]] is [undefined]. *)
Fixpoint targets_loop (centers : list vec3) (i : nat) (ts : list Target)
                      (a : Arrow) (sc st : Z) : option (Arrow * Z * Z) :=
  match ts with
  | [] => Some (a, sc, st)
  | target :: rest =>
      match nth_error centers i with
      | None => None
      | Some center =>
          match plane_hit a center target with
          | Some (hit_pos, r) =>
              let ring_frac := (r / radius target)%float in
              let points := score_for_radius_fraction ring_frac in
              Some (stick a hit_pos,
                    sc + points,
                    if points >=? 8 then st + 1 else 0)
          | None => targets_loop centers (S i) rest a sc st
          end
      end
  end.

(** [for (const a of this.arrows)]: the arrows are updated in place, in
    order; [score] and [streak] are threaded through. *)
Fixpoint arrows_loop (centers : list vec3) (ts : list Target)
                     (l : list Arrow) (sc st : Z) : option (list Arrow * Z * Z) :=
  match l with
  | [] => Some ([], sc, st)
  | a :: rest =>
      if negb (alive a) || stuck a then
        match arrows_loop centers ts rest sc st with
        | Some (rest', sc', st') => Some (a :: rest', sc', st')
        | None => None
        end
      else
        match targets_loop centers 0 ts a sc st with
        | Some (a', sc1, st1) =>
            match arrows_loop centers ts rest sc1 st1 with
            | Some (rest', sc', st') => Some (a' :: rest', sc', st')
            | None => None
            end
        | None => None
        end
  end.

Section Bullseye_Range.

Context `{Trig}.
Local Open Scope js_scope.

(** [reset_game()] *)
Definition reset_game : Session :=
  {| score := 0;
     shots_taken := 0;
     max_shots := GAME_CONFIG.maxShots;
     streak := 0;
     aim_yaw := 0%float;
     aim_pitch := 0%float;
     aim_sensitivity := GAME_CONFIG.aimSensitivity;
     is_drawing := false;
     draw_strength := 0%float;
     max_draw_strength := GAME_CONFIG.maxDrawStrength;
     arrows := [];
     gravity := GAME_CONFIG.gravity;
     weather := Weather.new;
     target_centers := [];
     targets :=
       [ Target_.new (Vec3 (-5)%float 4%float (-40)%float)
           2.5%float 0.2%float 4%float 1.5%float 1.2%float 2.4%float;
         Target_.new (Vec3 6%float 6%float (-60)%float)
           3.0%float 0.2%float 8%float 3.0%float 0.8%float 0.4%float ] |}.

(** [get_weather_wind_vector()]: throws when the preset is [undefined]. *)
Definition get_weather_wind_vector (s : Session) : option vec3 :=
  preset <?- Weather.preset (weather s) ;;
  let st := windStrength preset in
  let a := windAngle preset in
  Some (Vec3 (st * Math_cos a)%float 0%float (st * Math_sin a)%float).

(** [current_aim_direction()] *)
Definition current_aim_direction (s : Session) : vec3 :=
  let cy := Math_cos (aim_yaw s) in
  let sy := Math_sin (aim_yaw s) in
  let cp := Math_cos (aim_pitch s) in
  let sp := Math_sin (aim_pitch s) in
  V.normalized (Vec3 (sy * cp)%float sp (- cy * cp)%float).

(** [get_player_origin()] *)
Definition get_player_origin : vec3 :=
  Vec3 0%float GAME_CONFIG.playerHeight 0%float.

(** [compute_arrow_speed()] *)
Definition compute_arrow_speed (s : Session) : number :=
  (GAME_CONFIG.baseArrowSpeed * (0.2 + 0.8 * draw_strength s))%float.

(** [spawn_arrow()] *)
Definition spawn_arrow (s : Session) : option Session :=
  if shots_taken s >=? max_shots s then Some s
  else
    let dir := current_aim_direction s in
    let start := V.plus get_player_origin (V.times dir GAME_CONFIG.arrowSpawnForward) in
    let speed := compute_arrow_speed s in
    wind <?- get_weather_wind_vector s ;;
    let velocity := V.plus (V.times dir speed) wind in
    Some (mkSession (score s) (shots_taken s + 1) (max_shots s) (streak s)
            (aim_yaw s) (aim_pitch s) (aim_sensitivity s) (is_drawing s)
            (draw_strength s) (max_draw_strength s)
            (arrows s ++ [Arrow_.new start velocity])
            (gravity s) (weather s) (target_centers s) (targets s)).

(** [update_aim(is_hold, dt)] *)
Definition update_aim (is_hold : bool) (dt : number) (s : Session) : Session :=
  if negb is_hold then s
  else with_draw s (is_drawing s)
         (Math_min (max_draw_strength s)
                   (draw_strength s + GAME_CONFIG.drawChargeRate * dt)%float).

(** [update_targets(dt)] *)
Definition update_targets (dt : number) (s : Session) : Session :=
  let ts := map (Target_.update dt) (targets s) in
  with_targets s ts (map Target_.get_center ts).

(** The two statements of [update_arrows] after the wind is read: the
    loop that integrates every arrow, and the filter that keeps the
    arrows still alive. *)
Definition integrate_arrows (dt : number) (wind_vec : vec3) (s : Session) : Session :=
  with_arrows s (map (Arrow_.update dt (gravity s) wind_vec) (arrows s)).

Definition prune_dead_arrows (s : Session) : Session :=
  with_arrows s (filter alive (arrows s)).

(** [update_arrows(dt)] *)
Definition update_arrows (dt : number) (s : Session) : option Session :=
  wind_vec <?- get_weather_wind_vector s ;;
  Some (prune_dead_arrows (integrate_arrows dt wind_vec s)).

(** [resolve_arrow_target_collisions()] *)
Definition resolve_arrow_target_collisions (s : Session) : option Session :=
  r <?- arrows_loop (target_centers s) (targets s) (arrows s) (score s) (streak s) ;;
  let '(l, sc, st) := r in
  Some (with_collisions s l sc st).

(** The state in which [update_simulation] calls the collision resolver:
    its first three statements. *)
Definition before_collisions (dt : number) (s : Session) : M Session :=
  w <- Weather.update dt (weather s) ;;
  lift (update_arrows dt (update_targets dt (with_weather s w))).

(** [update_simulation(dt)] *)
Definition update_simulation (dt : number) (s : Session) : M Session :=
  s3 <- before_collisions dt s ;;
  lift (resolve_arrow_target_collisions s3).

(** The handlers installed by [render_controls]. *)
Definition aim_left (s : Session) : Session :=
  with_aim s (aim_yaw s - aim_sensitivity s)%float (aim_pitch s).

Definition aim_right (s : Session) : Session :=
  with_aim s (aim_yaw s + aim_sensitivity s)%float (aim_pitch s).

Definition aim_up (s : Session) : Session :=
  with_aim s (aim_yaw s)
    (Math_min (aim_pitch s + aim_sensitivity s)%float 0.4%float).

Definition aim_down (s : Session) : Session :=
  with_aim s (aim_yaw s)
    (Math_max (aim_pitch s - aim_sensitivity s)%float (-0.4)%float).

(** Key down of [Draw / Release]. *)
Definition draw_press (s : Session) : Session :=
  if negb (is_drawing s) && (shots_taken s <? max_shots s)
  then with_draw s true 0%float
  else s.

(** Key up of [Draw / Release]. *)
Definition draw_release (s : Session) : option Session :=
  if is_drawing s
  then spawn_arrow (with_draw s false (draw_strength s))
  else Some s.

Definition cycle_weather (s : Session) : Session :=
  with_weather s (Weather.cycle_type (weather s)).

(** The time step that [render_animation] computes from
    [uniforms.animation_delta_time], in milliseconds. *)
Definition frame_dt (animation_delta_time : number) : number :=
  let dt := (animation_delta_time / 1000)%float in
  Math_min dt GAME_CONFIG.dtClamp.

(** The simulation part of [render_animation(caller)]; [animate] is
    [uniforms.animate].  The drawing calls that follow read the state and
    do not change it. *)
Definition render_animation (animate : bool) (animation_delta_time : number)
                            (s : Session) : M Session :=
  let dt := frame_dt animation_delta_time in
  if animate then
    let s1 := if is_drawing s then update_aim true dt s else s in
    update_simulation dt s1
  else ret s.

(** The events a session receives from its host: the handlers above, a
    direct fire request ([spawn_arrow]), and a rendered frame. *)
Inductive Event : Type :=
| AimLeft | AimRight | AimUp | AimDown
| DrawPress | DrawRelease
| CycleWeather | ResetGame
| Fire
| Frame (animate : bool) (animation_delta_time : number).

Definition handle (e : Event) (s : Session) : M Session :=
  match e with
  | AimLeft => ret (aim_left s)
  | AimRight => ret (aim_right s)
  | AimUp => ret (aim_up s)
  | AimDown => ret (aim_down s)
  | DrawPress => ret (draw_press s)
  | DrawRelease => lift (draw_release s)
  | CycleWeather => ret (cycle_weather s)
  | ResetGame => ret reset_game
  | Fire => lift (spawn_arrow s)
  | Frame animate ms => render_animation animate ms s
  end.

Fixpoint run (es : list Event) (s : Session) : M Session :=
  match es with
  | [] => ret s
  | e :: rest => s' <- handle e s ;; run rest s'
  end.

(** The tick as the specification words it: weather update, target
    update, arrow integration, collision resolution, and dead-arrow
    pruning last.  [collision_input_as_specified] is the state that this
    order hands to the collision resolver. *)
Definition collision_input_as_specified (dt : number) (s : Session) : M Session :=
  w <- Weather.update dt (weather s) ;;
  let s2 := update_targets dt (with_weather s w) in
  wind_vec <- lift (get_weather_wind_vector s2) ;;
  ret (integrate_arrows dt wind_vec s2).

Definition tick_as_specified (dt : number) (s : Session) : M Session :=
  s3 <- collision_input_as_specified dt s ;;
  s4 <- lift (resolve_arrow_target_collisions s3) ;;
  ret (prune_dead_arrows s4).

End Bullseye_Range.

(* ================================================================== *)
(** ** Invariants of the states the code builds *)
(* ================================================================== *)

(** What [new WeatherSystem()] establishes and every method keeps. *)
Definition Weather_ok (w : WeatherSystem) : Prop :=
  weather_types w = ["clear"; "wind"; "rain"; "snow"]%string /\
  (current_index w < 4)%nat /\
  max_particles w = 400%nat /\
  (List.length (particles w) <= 400)%nat.

(** A stuck arrow is alive and at rest. *)
Definition Arrow_ok (a : Arrow) : Prop :=
  stuck a = true -> alive a = true /\ vel a = Vec3 0%float 0%float 0%float.

(** What [reset_game()] establishes and every handler keeps. *)
Definition Session_ok (s : Session) : Prop :=
  Weather_ok (weather s) /\
  0 <= shots_taken s <= max_shots s /\
  max_shots s = 20 /\
  Forall Arrow_ok (arrows s).

(** What one pass over the targets can do to a flying arrow. *)
Inductive Outcome (a : Arrow) (sc st : Z) : Arrow * Z * Z -> Prop :=
| Missed : Outcome a sc st (a, sc, st)
| Scored (hit_pos : vec3) (points : Z) :
    Outcome a sc st
      (stick a hit_pos, sc + points, if points >=? 8 then st + 1 else 0).

(** How the collision loop relates each arrow to its successor. *)
Definition resolved (a a' : Arrow) : Prop :=
  a' = a \/
  (alive a = true /\ stuck a = false /\ exists hit_pos, a' = stick a hit_pos).

(** Every stuck arrow of [s] is, unchanged, an arrow of [s']. *)
Definition keeps_stuck (s s' : Session) : Prop :=
  forall a, In a (arrows s) -> stuck a = true -> In a (arrows s').

(** A list of events without [ResetGame]: one session. *)
Definition no_reset (es : list Event) : Prop := ~ In ResetGame es.

(* ================================================================== *)
(** ** Data for the worked examples *)
(* ================================================================== *)

Module Examples.

(** One fixed implementation of the two functions, so that examples
    evaluate: the Taylor polynomials of sine and cosine at 0, of degree
    7 and 6. *)
Definition poly_sin (x : number) : number :=
  (x - x * x * x / 6 + x * x * x * x * x / 120
     - x * x * x * x * x * x * x / 5040)%float.

Definition poly_cos (x : number) : number :=
  (1 - x * x / 2 + x * x * x * x / 24 - x * x * x * x * x * x / 720)%float.

Definition poly_trig : Trig :=
  {| Math_sin := poly_sin; Math_cos := poly_cos |}.

(** A random source that always yields one half. *)
Definition halves : RandomSource := fun _ => 0.5%float.

(** A fresh session with one arrow in flight, about to pass below the
    ground plane. *)
Definition falling : Session :=
  with_arrows reset_game
    [ mkArrow (Vec3 0%float (-1.9)%float (-10)%float)
              (Vec3 0%float (-1.4)%float (-9.2)%float)
              (Vec3 0%float (-30)%float (-50)%float) true false ].

(** A fresh session in which the bow is drawn half way. *)
Definition charged : Session := with_draw reset_game true 0.5%float.

(** A session whose twenty shots are spent. *)
Definition spent : Session :=
  mkSession 0 20 20 0 0%float 0%float GAME_CONFIG.aimSensitivity false
    0%float GAME_CONFIG.maxDrawStrength [] GAME_CONFIG.gravity Weather.new
    [] (targets reset_game).

Definition drop : Particle :=
  mkParticle (Vec3 0%float 17%float (-50)%float) (Vec3 0%float (-35)%float 0%float)
             1.25%float 0%float (Color 0.6%float 0.7%float 0.9%float 0.6%float)
             (Vec3 0.05%float 0.6%float 0.05%float).

(** Rain with the particle collection at capacity. *)
Definition full_rain : WeatherSystem :=
  mkWeather (repeat drop 400) 400 ["clear"; "wind"; "rain"; "snow"]%string 2.

(** Snow with one particle left, one cycle away from clear. *)
Definition snowing : WeatherSystem :=
  mkWeather [drop] 400 ["clear"; "wind"; "rain"; "snow"]%string 3.

(** The first target at rest, and two arrows that cross its plane in one
    tick: one through the centre, one five units to the side. *)
Definition near_target : Target :=
  Target_.new (Vec3 (-5)%float 4%float (-40)%float)
    2.5%float 0.2%float 4%float 1.5%float 1.2%float 2.4%float.

Definition near_center : vec3 := Vec3 (-5)%float 4%float (-40)%float.

Definition on_axis : Arrow :=
  mkArrow (Vec3 (-5)%float 4%float (-41)%float) (Vec3 (-5)%float 4%float (-39)%float)
          (Vec3 0%float 0%float (-60)%float) true false.


(** The arrow [on_axis] after it has hit, and a session that holds it. *)
Definition planted : Arrow := stick on_axis near_center.

Definition range_with_planted : Session := with_arrows reset_game [planted].

End Examples.

(* ================================================================== *)
(** ** What the drawing functions compute *)
(* ================================================================== *)

(** [Mat4] comes from ['../common.js'], which is not among the sources at
    hand: the matrix type and the three operations the functions below use
    are parameters. *)
Class Graphics : Type := {
  Mat4 : Type;
  Mat4_translation : number -> number -> number -> Mat4;
  Mat4_scale : number -> number -> number -> Mat4;
  Mat4_times : Mat4 -> Mat4 -> Mat4
}.

(** A material of [this.materials], by name, with the colour that replaces
    its own in [{ ...material, color: p.color }]. *)
Record Material : Type := mkMaterial {
  mat_name : string;
  mat_color : option color4
}.

(** One call [shape.draw(caller, uniforms, transform, material)]. *)
Record DrawCall `{Graphics} : Type := mkDraw {
  dc_shape : string;
  dc_transform : Mat4;
  dc_material : Material
}.

Arguments mkDraw {_} _ _ _.
Arguments dc_shape {_} _.
Arguments dc_transform {_} _.
Arguments dc_material {_} _.

Section Drawing.

Context `{Trig} `{Graphics}.
Local Open Scope js_scope.

(** [WeatherSystem.draw(caller, uniforms, material)] *)
Definition Weather_draw (w : WeatherSystem) (material : string) : list DrawCall :=
  if Weather.type_is_clear w then []
  else
    map (fun p =>
           mkDraw "square"%string
             (Mat4_times
                (Mat4_translation (v0 (p_pos p)) (v1 (p_pos p)) (v2 (p_pos p)))
                (Mat4_scale (v0 (p_scale p)) (v1 (p_scale p)) (v2 (p_scale p))))
             (mkMaterial material (Some (p_color p))))
        (particles w).

(** The table [rings] of [draw_targets]. *)
Definition rings : list (number * string) :=
  [ (1.0%float, "target_white"%string); (0.8%float, "target_black"%string);
    (0.6%float, "target_blue"%string); (0.4%float, "target_red"%string);
    (0.2%float, "target_gold"%string) ].

(** [for (const ring of rings)] with its counter [layer]. *)
Fixpoint rings_loop (center : vec3) (target : Target) (layer : number)
                    (rs : list (number * string)) : list DrawCall :=
  match rs with
  | [] => []
  | (frac, material) :: rest =>
      let z_offset := (layer * 0.05)%float in
      let face_transform :=
        Mat4_times
          (Mat4_translation (v0 center) (v1 center) (v2 center + z_offset)%float)
          (Mat4_scale (radius target * frac)%float (radius target * frac)%float
                      (depth target)) in
      mkDraw "target_face"%string face_transform (mkMaterial material None)
        :: rings_loop center target (layer + 1)%float rest
  end.

(** [for (let i = 0; i < this.targets.length; i++)] of [draw_targets],
    from index [i] on.  Reading [center[0]] throws when
    [this.target_centers[i]] is [undefined]. *)
Fixpoint draw_targets_loop (centers : list vec3) (i : nat) (ts : list Target)
  : option (list DrawCall) :=
  match ts with
  | [] => Some []
  | target :: rest =>
      match nth_error centers i with
      | None => None
      | Some center =>
          let post_transform :=
            Mat4_times
              (Mat4_translation (v0 center) (v1 center - radius target - 2.0)%float
                                (v2 center))
              (Mat4_scale 0.15%float (radius target + 2.0)%float 0.15%float) in
          let here :=
            mkDraw "post"%string post_transform (mkMaterial "wood"%string None)
              :: rings_loop center target 0%float rings in
          more <?- draw_targets_loop centers (S i) rest ;;
          Some (here ++ more)
      end
  end.

(** [draw_targets(caller)] *)
Definition draw_targets (s : Session) : option (list DrawCall) :=
  draw_targets_loop (target_centers s) 0 (targets s).

(** The loop of [draw_trajectory]: the points at which a dot is drawn,
    [n] turns being left. *)
Fixpoint trajectory_loop (n : nat) (wind : vec3) (gravity : number)
                         (pos vel : vec3) : list vec3 :=
  match n with
  | O => []
  | S n' =>
      let step := 0.1%float in
      let vel' :=
        V.plus vel (Vec3 (v0 wind * step)%float
                         (gravity * step + v1 wind * step)%float
                         (v2 wind * step)%float) in
      let pos' := V.plus pos (V.times vel' step) in
      if (v1 pos' <? -2)%float then []
      else pos' :: trajectory_loop n' wind gravity pos' vel'
  end.

(** [draw_trajectory(caller)] *)
Definition draw_trajectory (s : Session) : option (list DrawCall) :=
  if negb (is_drawing s) then Some []
  else
    let dir := current_aim_direction s in
    let pos := V.plus get_player_origin (V.times dir 1.0%float) in
    wind0 <?- get_weather_wind_vector s ;;
    let vel := V.plus (V.times dir (compute_arrow_speed s)) wind0 in
    wind <?- get_weather_wind_vector s ;;
    Some (map (fun p =>
                 mkDraw "dot"%string
                   (Mat4_times (Mat4_translation (v0 p) (v1 p) (v2 p))
                               (Mat4_scale 0.1%float 0.1%float 0.1%float))
                   (mkMaterial "dot"%string None))
              (trajectory_loop 20 wind (gravity s) pos vel)).

End Drawing.

(* ================================================================== *)
(** ** Further invariants and notions used in the statements *)
(* ================================================================== *)

(** The number of stuck arrows of a collection. *)
Definition stuck_count (l : list Arrow) : Z :=
  Z.of_nat (List.length (filter stuck l)).

(** The arrow collection holds live arrows only, no more than were shot,
    and the score and the streak are covered by the arrows that stuck. *)
Definition Arrows_book (s : Session) : Prop :=
  Forall (fun a => alive a = true) (arrows s) /\
  Z.of_nat (List.length (arrows s)) <= shots_taken s /\
  0 <= score s <= 10 * stuck_count (arrows s) /\
  0 <= streak s <= stuck_count (arrows s).

Definition Arrows_inv (s : Session) : Prop := Session_ok s /\ Arrows_book s.

(** A target with its clock set back to 0. *)
Definition at_rest (t : Target) : Target :=
  mkTarget (base_center t) (radius t) (depth t) (amp_x t) (amp_y t)
           (freq_x t) (freq_y t) 0%float.

(** The targets are those of [reset_game] up to their clocks, the centres
    are absent or those of the targets, and the tunables are as set. *)
Definition Range_inv `{Trig} (s : Session) : Prop :=
  map at_rest (targets s) = targets reset_game /\
  (target_centers s = [] \/
   target_centers s = map Target_.get_center (targets s)) /\
  gravity s = GAME_CONFIG.gravity /\
  max_draw_strength s = GAME_CONFIG.maxDrawStrength /\
  aim_sensitivity s = GAME_CONFIG.aimSensitivity.

(** The charge is [NaN] or at most the maximum. *)
Definition Charge_inv (s : Session) : Prop :=
  max_draw_strength s = GAME_CONFIG.maxDrawStrength /\
  (PrimFloat.is_nan (draw_strength s) = true \/
   (draw_strength s <=? GAME_CONFIG.maxDrawStrength)%float = true).

(** While the bow is drawn a shot is left. *)
Definition Ready_inv (s : Session) : Prop :=
  Session_ok s /\ (is_drawing s = true -> shots_taken s < max_shots s).

(** A list of events without a direct [Fire]: the controls and frames. *)
Definition no_fire (es : list Event) : Prop := ~ In Fire es.

(** Under the clear preset there is no particle. *)
Definition Clear_inv (w : WeatherSystem) : Prop :=
  Weather_ok w /\ (current_index w = 0%nat -> particles w = []).

(** No particle has outlived its life span or fallen below the floor. *)
Definition fresh_particle (p : Particle) : Prop :=
  (p_life p <? p_age p)%float = false /\ (v1 (p_pos p) <? -5)%float = false.

(** The states of an arrow under [Arrow.update] with a fixed step, for at
    most [n] steps and as long as it is alive. *)
Fixpoint flight (n : nat) (dt gravity : number) (wind : vec3) (a : Arrow)
  : list Arrow :=
  match n with
  | O => []
  | S n' =>
      let a' := Arrow_.update dt gravity wind a in
      if alive a' then a' :: flight n' dt gravity wind a' else []
  end.

Module MoreExamples.

(** Matrices kept as the list of the operations that built them. *)
Definition symbolic_graphics : Graphics :=
  {| Mat4 := list (string * vec3);
     Mat4_translation := fun x y z => [("translation"%string, Vec3 x y z)];
     Mat4_scale := fun x y z => [("scale"%string, Vec3 x y z)];
     Mat4_times := fun a b => a ++ b |}.

(** A fresh session with the arrow [on_axis] in flight. *)
Definition first_flight : Session := with_arrows reset_game [Examples.on_axis].

(** A fresh session with an arrow one unit in front of the first target's
    plane, flying at it. *)
Definition approaching : Session :=
  with_arrows reset_game
    [ mkArrow (Vec3 (-5)%float 4%float (-39)%float) (Vec3 (-5)%float 4%float (-38)%float)
              (Vec3 0%float 0%float (-60)%float) true false ].

End MoreExamples.

(* ================================================================== *)
(** ** Facts about binary64 comparisons and [Math.min] *)
(* ================================================================== *)

Module FloatFacts.

Local Open Scope float_scope.

Lemma SFcompare_refl (f g : spec_float) (c : comparison) :
  SFcompare f g = Some c -> SFcompare f f = Some Eq.
Proof.
  destruct f as [s| s | | s m e]; simpl.
  - reflexivity.
  - destruct s; reflexivity.
  - discriminate.
  - intros _. destruct s; rewrite Z.compare_refl, Pos.compare_cont_refl; reflexivity.
Qed.

Lemma SFcompare_antisym (f g : spec_float) :
  SFcompare g f = option_map CompOpp (SFcompare f g).
Proof.
  destruct f as [s| s | | s m e], g as [s'| s' | | s' m' e']; simpl;
    try reflexivity; try (destruct s; reflexivity); try (destruct s'; reflexivity);
    try (destruct s, s'; reflexivity).
  destruct s, s'; try reflexivity.
  - rewrite (Z.compare_antisym e' e). destruct (e' ?= e)%Z; simpl; try reflexivity.
    f_equal. rewrite CompOpp_involutive. exact (Pos.compare_cont_antisym m' m Eq).
  - rewrite (Z.compare_antisym e' e). destruct (e' ?= e)%Z; simpl; try reflexivity.
    f_equal. symmetry. exact (Pos.compare_cont_antisym m m' Eq).
Qed.

Lemma compared_not_nan (x y : float) (c : comparison) :
  SFcompare (Prim2SF x) (Prim2SF y) = Some c ->
  PrimFloat.is_nan x = false /\ PrimFloat.is_nan y = false.
Proof.
  intros Hc. unfold PrimFloat.is_nan. rewrite !FloatAxioms.eqb_spec. unfold SFeqb.
  assert (Hc' : SFcompare (Prim2SF y) (Prim2SF x) = Some (CompOpp c))
    by (rewrite SFcompare_antisym, Hc; reflexivity).
  rewrite (SFcompare_refl _ _ _ Hc), (SFcompare_refl _ _ _ Hc'). split; reflexivity.
Qed.

Lemma leb_true (x y : float) :
  (x <=? y) = true ->
  PrimFloat.is_nan x = false /\ PrimFloat.is_nan y = false /\ (y <? x) = false.
Proof.
  rewrite FloatAxioms.leb_spec, FloatAxioms.ltb_spec. unfold SFleb, SFltb. intros Hle.
  destruct (SFcompare (Prim2SF x) (Prim2SF y)) as [c|] eqn:Hc; [|discriminate].
  destruct (compared_not_nan _ _ _ Hc) as [Hx Hy].
  rewrite SFcompare_antisym, Hc. destruct c; try discriminate; auto.
Qed.

Lemma ltb_true (x y : float) :
  (x <? y) = true ->
  PrimFloat.is_nan x = false /\ PrimFloat.is_nan y = false /\ (y <? x) = false.
Proof.
  rewrite !FloatAxioms.ltb_spec. unfold SFltb. intros Hlt.
  destruct (SFcompare (Prim2SF x) (Prim2SF y)) as [c|] eqn:Hc; [|discriminate].
  destruct (compared_not_nan _ _ _ Hc) as [Hx Hy].
  rewrite SFcompare_antisym, Hc. destruct c; try discriminate; auto.
Qed.

Lemma ltb_not_leb (x y : float) : (x <? y) = true -> (y <=? x) = false.
Proof.
  rewrite FloatAxioms.ltb_spec, FloatAxioms.leb_spec. unfold SFltb, SFleb.
  rewrite (SFcompare_antisym (Prim2SF x) (Prim2SF y)).
  destruct (SFcompare (Prim2SF x) (Prim2SF y)) as [[| |]|]; simpl; congruence.
Qed.

(** At most zero is below every positive finite number. *)
Lemma leb_zero_ltb_positive (x y : float) (m : positive) (e : Z) :
  (x <=? 0) = true ->
  Prim2SF y = S754_finite false m e -> (x <? y) = true.
Proof.
  rewrite FloatAxioms.leb_spec, FloatAxioms.ltb_spec. unfold SFleb, SFltb.
  change (Prim2SF 0) with (S754_zero false).
  intros Hle ->.
  destruct (Prim2SF x) as [s| s | | s m' e']; simpl in *; try discriminate;
    try reflexivity; destruct s; simpl in *; congruence.
Qed.

Lemma Math_min_left (x y : float) :
  (x <=? y) = true -> is_neg_zero y = false -> Math_min x y = x.
Proof.
  intros Hle Hy. destruct (leb_true _ _ Hle) as (Hx & Hy' & Hlt).
  unfold Math_min. rewrite Hx, Hy', Hlt, Hy. simpl.
  destruct (x <? y); reflexivity.
Qed.

Lemma Math_min_right (x y : float) :
  (y <? x) = true -> Math_min x y = y.
Proof.
  intros Hlt. destruct (ltb_true _ _ Hlt) as (Hy & Hx & Hxy).
  unfold Math_min. rewrite Hx, Hy, Hxy, Hlt. reflexivity.
Qed.

Lemma Math_min_nan (y : float) : Math_min PrimFloat.nan y = PrimFloat.nan.
Proof. reflexivity. Qed.

End FloatFacts.

Module CollisionFacts.

Lemma targets_loop_outcome (centers : list vec3) (ts : list Target) :
  forall (i : nat) (a : Arrow) (sc st : Z) (res : Arrow * Z * Z),
    targets_loop centers i ts a sc st = Some res -> Outcome a sc st res.
Proof.
  induction ts as [|target rest IH]; simpl; intros i a sc st res Hres.
  - injection Hres as <-. constructor.
  - destruct (nth_error centers i) as [center|]; [|discriminate].
    destruct (plane_hit a center target) as [[hit_pos r]|].
    + injection Hres as <-. constructor.
    + eapply IH; eassumption.
Qed.

Lemma targets_loop_total (centers : list vec3) (ts : list Target) :
  forall (i : nat) (a : Arrow) (sc st : Z),
    (i + List.length ts <= List.length centers)%nat ->
    exists res, targets_loop centers i ts a sc st = Some res.
Proof.
  induction ts as [|target rest IH]; simpl; intros i a sc st Hlen.
  - eexists; reflexivity.
  - destruct (nth_error centers i) as [center|] eqn:Hc.
    + destruct (plane_hit a center target) as [[hit_pos r]|].
      * eexists; reflexivity.
      * apply IH. lia.
    + apply nth_error_None in Hc. lia.
Qed.

(** No target hit: the arrow, the score and the streak come back as they
    went in. *)
Lemma targets_loop_all_missed (centers : list vec3) (ts : list Target) (a : Arrow) :
  forall (i : nat) (sc st : Z),
    (forall k target, nth_error ts k = Some target ->
       exists center, nth_error centers (i + k) = Some center /\
                      plane_hit a center target = None) ->
    targets_loop centers i ts a sc st = Some (a, sc, st).
Proof.
  induction ts as [|target rest IH]; simpl; intros i sc st Hmiss.
  - reflexivity.
  - destruct (Hmiss 0%nat target eq_refl) as (center & Hc & Hp).
    rewrite Nat.add_0_r in Hc. rewrite Hc, Hp.
    apply IH. intros k t Hk.
    destruct (Hmiss (S k) t Hk) as (c & Hc' & Hp').
    exists c. rewrite Nat.add_succ_comm. auto.
Qed.


Lemma arrows_loop_resolved (centers : list vec3) (ts : list Target) (l : list Arrow) :
  forall (sc st : Z) (l' : list Arrow) (sc' st' : Z),
    arrows_loop centers ts l sc st = Some (l', sc', st') ->
    Forall2 resolved l l'.
Proof.
  induction l as [|a rest IH]; simpl; intros sc st l' sc' st' Hres.
  - injection Hres as <- _ _. constructor.
  - destruct (negb (alive a) || stuck a) eqn:Hskip.
    + destruct (arrows_loop centers ts rest sc st) as [[[rest' sc1] st1]|] eqn:Hrest;
        [|discriminate].
      injection Hres as <- _ _. constructor; [left; reflexivity | eauto].
    + apply orb_false_elim in Hskip as [Ha Hs]. apply negb_false_iff in Ha.
      destruct (targets_loop centers 0 ts a sc st) as [[[a1 sc1] st1]|] eqn:Hts;
        [|discriminate].
      destruct (arrows_loop centers ts rest sc1 st1) as [[[rest' sc2] st2]|] eqn:Hrest;
        [|discriminate].
      injection Hres as <- _ _. constructor; [|eauto].
      apply targets_loop_outcome in Hts. inversion Hts; subst.
      * left; reflexivity.
      * right. eauto.
Qed.

(** No flying arrow hits a target: the loop returns what it was given. *)
Lemma arrows_loop_all_missed (centers : list vec3) (ts : list Target) (l : list Arrow) :
  forall (sc st : Z),
    (forall a, In a l -> alive a = true -> stuck a = false ->
       forall k t, nth_error ts k = Some t ->
         exists c, nth_error centers k = Some c /\ plane_hit a c t = None) ->
    arrows_loop centers ts l sc st = Some (l, sc, st).
Proof.
  induction l as [|a rest IH]; simpl; intros sc st Hmiss; [reflexivity|].
  assert (Hrest : arrows_loop centers ts rest sc st = Some (rest, sc, st)).
  { apply IH. intros b Hin. apply Hmiss. right. exact Hin. }
  destruct (negb (alive a) || stuck a) eqn:Hskip.
  - rewrite Hrest. reflexivity.
  - apply orb_false_elim in Hskip as [Ha Hs]. apply negb_false_iff in Ha.
    rewrite (targets_loop_all_missed centers ts a 0 sc st (Hmiss a (or_introl eq_refl) Ha Hs)).
    rewrite Hrest. reflexivity.
Qed.

Lemma arrows_loop_total (centers : list vec3) (ts : list Target) (l : list Arrow) :
  (List.length ts <= List.length centers)%nat ->
  forall (sc st : Z), exists res, arrows_loop centers ts l sc st = Some res.
Proof.
  intros Hlen. induction l as [|a rest IH]; simpl; intros sc st.
  - eexists; reflexivity.
  - destruct (negb (alive a) || stuck a).
    + destruct (IH sc st) as [[[rest' sc1] st1] ->]. eexists; reflexivity.
    + destruct (targets_loop_total centers ts 0 a sc st Hlen) as [[[a1 sc1] st1] ->].
      destruct (IH sc1 st1) as [[[rest' sc2] st2] ->]. eexists; reflexivity.
Qed.

Lemma resolved_alive (a a' : Arrow) : resolved a a' -> alive a' = alive a.
Proof. intros [->|(_ & _ & hp & ->)]; reflexivity. Qed.

Lemma resolved_ok (a a' : Arrow) : resolved a a' -> Arrow_ok a -> Arrow_ok a'.
Proof.
  intros [->|(Ha & _ & hp & ->)] Hok; [exact Hok|].
  intros _. simpl. auto.
Qed.

Lemma resolved_stuck (a a' : Arrow) : resolved a a' -> stuck a = true -> a' = a.
Proof. intros [->|(_ & Hs & _)] Hst; [reflexivity|congruence]. Qed.

Lemma resolved_filter_alive (l l' : list Arrow) :
  Forall2 resolved l l' -> Forall2 resolved (filter alive l) (filter alive l').
Proof.
  induction 1 as [|a a' l l' Hr _ IH]; simpl; [constructor|].
  rewrite (resolved_alive _ _ Hr). destruct (alive a); [constructor|]; assumption.
Qed.

(** Dead arrows neither score nor throw: pruning them before or after
    the collision loop gives the same arrows, score and streak. *)
Lemma arrows_loop_filter_alive (centers : list vec3) (ts : list Target) (l : list Arrow) :
  forall (sc st : Z),
    arrows_loop centers ts (filter alive l) sc st =
    match arrows_loop centers ts l sc st with
    | Some (l', sc', st') => Some (filter alive l', sc', st')
    | None => None
    end.
Proof.
  induction l as [|a rest IH]; simpl; intros sc st; [reflexivity|].
  destruct (alive a) eqn:Ha; simpl.
  - rewrite Ha. simpl. destruct (stuck a) eqn:Hs.
    + rewrite IH. destruct (arrows_loop centers ts rest sc st) as [[[rest' sc1] st1]|];
        [|reflexivity]. simpl. rewrite Ha. reflexivity.
    + destruct (targets_loop centers 0 ts a sc st) as [[[a1 sc1] st1]|] eqn:Hts;
        [|reflexivity].
      rewrite IH. destruct (arrows_loop centers ts rest sc1 st1) as [[[rest' sc2] st2]|];
        [|reflexivity]. simpl.
      apply targets_loop_outcome in Hts.
      assert (Ha1 : alive a1 = true) by (inversion Hts; subst; simpl; assumption).
      rewrite Ha1. reflexivity.
  - rewrite IH. destruct (arrows_loop centers ts rest sc st) as [[[rest' sc1] st1]|];
      [|reflexivity]. simpl. rewrite Ha. reflexivity.
Qed.

End CollisionFacts.

Module WeatherFacts.

Lemma ok_new : Weather_ok Weather.new.
Proof. unfold Weather_ok; simpl; repeat split; lia. Qed.

Lemma preset_defined (w : WeatherSystem) :
  Weather_ok w -> exists p, Weather.preset w = Some p.
Proof.
  intros (Ht & Hi & _). unfold Weather.preset, Weather.type. rewrite Ht.
  destruct (current_index w) as [|[|[|[|n]]]]; try lia; eexists; reflexivity.
Qed.

(** [spawn_particle] returns; it adds at most one particle, and leaves
    the other fields alone. *)
Lemma spawn_particle_spec (w : WeatherSystem) (r : RandomSource) :
  Weather_ok w ->
  exists w' r',
    Weather.spawn_particle w r = Some (w', r') /\
    Weather_ok w' /\
    current_index w' = current_index w.
Proof.
  intros Hok. destruct (preset_defined w Hok) as [p Hp].
  destruct Hok as (Ht & Hi & Hm & Hl).
  unfold Weather.spawn_particle, bind, lift. rewrite Hp.
  destruct (particle p) as [tpl|].
  - destruct (max_particles w <=? List.length (particles w))%nat eqn:Hcap.
    + exists w, r. unfold ret, Weather_ok. auto 10.
    + apply Nat.leb_gt in Hcap. unfold sample, ret. simpl.
      eexists _, _. split; [reflexivity|].
      unfold Weather_ok. simpl. rewrite length_app. simpl. repeat split; auto; lia.
  - exists w, r. unfold ret, Weather_ok. auto 10.
Qed.

(** At capacity the spawn is skipped: no particle, no sample drawn. *)
Lemma spawn_particle_at_capacity (w : WeatherSystem) (r : RandomSource) :
  Weather_ok w ->
  (max_particles w <= List.length (particles w))%nat ->
  Weather.spawn_particle w r = Some (w, r).
Proof.
  intros Hok Hcap. destruct (preset_defined w Hok) as [p Hp].
  unfold Weather.spawn_particle, bind, lift. rewrite Hp.
  destruct (particle p) as [tpl|]; [|reflexivity].
  apply Nat.leb_le in Hcap. rewrite Hcap. reflexivity.
Qed.

Lemma spawn_loop_spec (count : nat) :
  forall (w : WeatherSystem) (r : RandomSource),
    Weather_ok w ->
    exists w' r',
      Weather.spawn_loop count w r = Some (w', r') /\
      Weather_ok w' /\
      current_index w' = current_index w.
Proof.
  induction count as [|n IH]; intros w r Hok; simpl.
  - exists w, r. auto.
  - destruct (spawn_particle_spec w r Hok) as (w1 & r1 & H1 & Hok1 & Hi1).
    destruct (IH w1 r1 Hok1) as (w2 & r2 & H2 & Hok2 & Hi2).
    exists w2, r2. unfold bind. rewrite H1. split; [exact H2|]. split; [exact Hok2|].
    congruence.
Qed.

Lemma age_all_length (dt : number) (ps : list Particle) :
  (List.length (Weather.age_all dt ps) <= List.length ps)%nat.
Proof.
  induction ps as [|p rest IH]; simpl; [lia|].
  destruct (Weather.age_particle dt p); simpl; lia.
Qed.

Lemma update_spec (dt : number) (w : WeatherSystem) (r : RandomSource) :
  Weather_ok w ->
  exists w' r',
    Weather.update dt w r = Some (w', r') /\
    Weather_ok w' /\
    current_index w' = current_index w.
Proof.
  intros Hok. destruct (preset_defined w Hok) as [p Hp].
  destruct (spawn_loop_spec (spawnPerFrame p) w r Hok) as (w1 & r1 & H1 & Hok1 & Hi1).
  unfold Weather.update, bind, lift. rewrite Hp, H1. unfold ret.
  eexists _, _. split; [reflexivity|].
  destruct Hok1 as (Ht & Hi & Hm & Hl). unfold Weather_ok. simpl.
  pose proof (age_all_length dt (particles w1)). repeat split; auto; lia.
Qed.

(** What [cycle_type] does to a well-formed system, field by field. *)
Lemma cycle_type_fields (w : WeatherSystem) :
  Weather_ok w ->
  Weather.cycle_type w =
    {| particles := if (current_index w =? 3)%nat then [] else particles w;
       max_particles := max_particles w;
       weather_types := weather_types w;
       current_index := (current_index w + 1) mod 4 |}.
Proof.
  intros (Ht & Hi & _). destruct w as [ps mx tys idx]. simpl in *. subst tys.
  destruct idx as [|[|[|[|n]]]]; try lia; reflexivity.
Qed.

Lemma cycle_type_ok (w : WeatherSystem) : Weather_ok w -> Weather_ok (Weather.cycle_type w).
Proof.
  intros Hok. rewrite (cycle_type_fields w Hok).
  destruct Hok as (Ht & Hi & Hm & Hl). unfold Weather_ok.
  cbn [particles max_particles weather_types current_index].
  repeat split; auto.
  - apply Nat.mod_upper_bound. lia.
  - destruct (current_index w =? 3)%nat; simpl; lia.
Qed.

End WeatherFacts.

Module ArrowFacts.

Lemma update_stuck (dt gravity : number) (wind : vec3) (a : Arrow) :
  stuck a = true -> Arrow_.update dt gravity wind a = a.
Proof.
  intros Hs. unfold Arrow_.update. rewrite Hs, orb_true_r. reflexivity.
Qed.


Lemma update_keeps_stuck_flag (dt gravity : number) (wind : vec3) (a : Arrow) :
  stuck (Arrow_.update dt gravity wind a) = stuck a.
Proof.
  unfold Arrow_.update. destruct (negb (alive a) || stuck a); reflexivity.
Qed.

Lemma update_ok (dt gravity : number) (wind : vec3) (a : Arrow) :
  Arrow_ok a -> Arrow_ok (Arrow_.update dt gravity wind a).
Proof.
  intros Hok Hs. rewrite update_keeps_stuck_flag in Hs.
  rewrite (update_stuck dt gravity wind a Hs). exact (Hok Hs).
Qed.

Lemma resolved_In (l l' : list Arrow) :
  Forall2 resolved l l' ->
  forall a, In a l -> stuck a = true -> In a l'.
Proof.
  induction 1 as [|b b' l l' Hr _ IH]; simpl; intros a Hin Hs; [contradiction|].
  destruct Hin as [<-|Hin].
  - left. exact (CollisionFacts.resolved_stuck _ _ Hr Hs).
  - right. exact (IH a Hin Hs).
Qed.

Lemma resolved_all_ok (l l' : list Arrow) :
  Forall2 resolved l l' -> Forall Arrow_ok l -> Forall Arrow_ok l'.
Proof.
  induction 1 as [|b b' l l' Hr _ IH]; intros Hall; [constructor|].
  apply Forall_cons_iff in Hall as [Hb Hl]. constructor; [|auto].
  exact (CollisionFacts.resolved_ok _ _ Hr Hb).
Qed.

End ArrowFacts.

(** Splits a goal [Session_ok _] and settles the conjuncts that the
    context already holds, leaving the one about the arrows. *)
Ltac session_ok :=
  unfold Session_ok; simpl;
  split; [ try assumption
         | split; [ try lia
                  | split; [ try assumption; try lia | try assumption ] ] ].

(** Settles the arithmetic part of the invariants on a concrete state. *)
Ltac concrete_ok :=
  unfold Session_ok, Weather_ok; simpl; unfold GAME_CONFIG.maxShots;
  repeat split; try lia.

Section SessionFacts.

Context `{Trig}.

Lemma ok_reset : Session_ok reset_game.
Proof.
  unfold Session_ok; simpl. split; [exact WeatherFacts.ok_new|].
  unfold GAME_CONFIG.maxShots. repeat split; try lia. constructor.
Qed.

Lemma wind_defined (s : Session) :
  Weather_ok (weather s) -> exists wind, get_weather_wind_vector s = Some wind.
Proof.
  intros Hok. destruct (WeatherFacts.preset_defined _ Hok) as [p Hp].
  unfold get_weather_wind_vector, obind. rewrite Hp. eexists; reflexivity.
Qed.

(** [spawn_arrow] returns; within the budget it appends one arrow and
    counts one shot, and it touches nothing else. *)
Lemma spawn_arrow_spec (s : Session) :
  Weather_ok (weather s) ->
  exists s',
    spawn_arrow s = Some s' /\
    ((max_shots s <= shots_taken s /\ s' = s) \/
     (shots_taken s < max_shots s /\
      exists a, alive a = true /\ stuck a = false /\
        s' = mkSession (score s) (shots_taken s + 1) (max_shots s) (streak s)
               (aim_yaw s) (aim_pitch s) (aim_sensitivity s) (is_drawing s)
               (draw_strength s) (max_draw_strength s) (arrows s ++ [a])
               (gravity s) (weather s) (target_centers s) (targets s))).
Proof.
  intros Hok. destruct (wind_defined s Hok) as [wind Hw].
  unfold spawn_arrow. destruct (shots_taken s >=? max_shots s) eqn:Hb.
  - exists s. split; [reflexivity|]. left. split; [lia | reflexivity].
  - rewrite Hw. simpl. eexists. split; [reflexivity|]. right. split; [lia|].
    eexists. split; [|split; [|reflexivity]]; reflexivity.
Qed.

Lemma spawn_arrow_ok (s : Session) :
  Session_ok s ->
  exists s', spawn_arrow s = Some s' /\ Session_ok s' /\ keeps_stuck s s'.
Proof.
  intros (Hw & Hshots & Hmax & Harrows).
  destruct (spawn_arrow_spec s Hw) as (s' & Hs' & [(Hfull & ->)|(Hroom & a & Ha & Hst & ->)]).
  - exists s. split; [exact Hs'|]. split; [unfold Session_ok; auto|].
    intros a Hin _. exact Hin.
  - eexists. split; [exact Hs'|]. split.
    + session_ok.
      apply Forall_app. split; [exact Harrows|]. constructor; [|constructor].
      intros Hs. congruence.
    + intros b Hin _. simpl. apply in_or_app. left. exact Hin.
Qed.

Lemma update_arrows_spec (dt : number) (s : Session) :
  Weather_ok (weather s) ->
  exists wind,
    get_weather_wind_vector s = Some wind /\
    update_arrows dt s = Some (prune_dead_arrows (integrate_arrows dt wind s)).
Proof.
  intros Hok. destruct (wind_defined s Hok) as [wind Hw].
  exists wind. split; [exact Hw|]. unfold update_arrows. rewrite Hw. reflexivity.
Qed.

Lemma update_arrows_ok (dt : number) (s : Session) :
  Session_ok s ->
  exists s', update_arrows dt s = Some s' /\ Session_ok s' /\ keeps_stuck s s' /\
             targets s' = targets s /\ target_centers s' = target_centers s.
Proof.
  intros (Hw & Hshots & Hmax & Harrows).
  destruct (update_arrows_spec dt s Hw) as (wind & _ & Hu).
  eexists. split; [exact Hu|]. split; [|split; [|split; reflexivity]].
  - session_ok.
    apply Forall_forall. intros a Hin. apply filter_In in Hin as [Hin _].
    apply in_map_iff in Hin as (b & <- & Hb).
    apply ArrowFacts.update_ok. rewrite Forall_forall in Harrows. auto.
  - intros a Hin Hs. simpl. apply filter_In. split.
    + apply in_map_iff. exists a. split; [|exact Hin].
      apply ArrowFacts.update_stuck. exact Hs.
    + rewrite Forall_forall in Harrows. apply (Harrows a Hin Hs).
Qed.

Lemma resolve_spec (s : Session) :
  (List.length (targets s) <= List.length (target_centers s))%nat ->
  exists l sc st,
    arrows_loop (target_centers s) (targets s) (arrows s) (score s) (streak s)
      = Some (l, sc, st) /\
    resolve_arrow_target_collisions s = Some (with_collisions s l sc st) /\
    Forall2 resolved (arrows s) l.
Proof.
  intros Hlen.
  destruct (CollisionFacts.arrows_loop_total _ _ (arrows s) Hlen (score s) (streak s))
    as [[[l sc] st] Hl].
  exists l, sc, st. split; [exact Hl|]. split.
  - unfold resolve_arrow_target_collisions, obind. rewrite Hl. reflexivity.
  - eapply CollisionFacts.arrows_loop_resolved; eassumption.
Qed.

Lemma resolve_ok (s : Session) :
  Session_ok s ->
  (List.length (targets s) <= List.length (target_centers s))%nat ->
  exists s', resolve_arrow_target_collisions s = Some s' /\
             Session_ok s' /\ keeps_stuck s s'.
Proof.
  intros (Hw & Hshots & Hmax & Harrows) Hlen.
  destruct (resolve_spec s Hlen) as (l & sc & st & _ & Hr & Hrel).
  eexists. split; [exact Hr|]. split.
  - session_ok.
    eapply ArrowFacts.resolved_all_ok; eassumption.
  - intros a Hin Hs. simpl. eapply ArrowFacts.resolved_In; eassumption.
Qed.

Lemma update_targets_lengths (dt : number) (s : Session) :
  List.length (targets (update_targets dt s))
  = List.length (target_centers (update_targets dt s)).
Proof. simpl. rewrite !length_map. reflexivity. Qed.

(** A tick returns and keeps the invariant and every stuck arrow. *)
Lemma update_simulation_ok (dt : number) (s : Session) (r : RandomSource) :
  Session_ok s ->
  exists s' r',
    update_simulation dt s r = Some (s', r') /\ Session_ok s' /\ keeps_stuck s s'.
Proof.
  intros (Hw & Hshots & Hmax & Harrows).
  destruct (WeatherFacts.update_spec dt (weather s) r Hw) as (w1 & r1 & Hwu & Hw1 & _).
  set (s2 := update_targets dt (with_weather s w1)).
  assert (Hok2 : Session_ok s2) by session_ok.
  destruct (update_arrows_ok dt s2 Hok2) as (s3 & Hs3 & Hok3 & Hk3 & Ht3 & Hc3).
  assert (Hlen : (List.length (targets s3) <= List.length (target_centers s3))%nat).
  { rewrite Ht3, Hc3. unfold s2. rewrite update_targets_lengths. lia. }
  destruct (resolve_ok s3 Hok3 Hlen) as (s4 & Hs4 & Hok4 & Hk4).
  exists s4, r1. split; [|split; [exact Hok4|]].
  - unfold update_simulation, before_collisions, bind, lift.
    rewrite Hwu. fold s2. rewrite Hs3, Hs4. reflexivity.
  - intros a Hin Hs. apply Hk4; [|exact Hs]. apply Hk3; [|exact Hs]. exact Hin.
Qed.

Lemma handle_ok (e : Event) (s : Session) (r : RandomSource) :
  Session_ok s ->
  exists s' r',
    handle e s r = Some (s', r') /\ Session_ok s' /\
    (e <> ResetGame -> keeps_stuck s s').
Proof.
  intros Hok.
  assert (Hrefl : forall s0, keeps_stuck s0 s0) by (intros s0 a Hin _; exact Hin).
  destruct e; simpl.
  1-4: (eexists _, _; split; [reflexivity|]; split;
        [destruct Hok as (? & ? & ? & ?); session_ok
        | intros _ a Hin _; exact Hin]).
  - (* DrawPress *)
    eexists _, _. split; [reflexivity|]. unfold draw_press.
    destruct (negb (is_drawing s) && (shots_taken s <? max_shots s)).
    + split; [destruct Hok as (? & ? & ? & ?); session_ok|].
      intros _ a Hin _; exact Hin.
    + split; [exact Hok | intros _; apply Hrefl].
  - (* DrawRelease *)
    unfold draw_release, lift. destruct (is_drawing s).
    + assert (Hok' : Session_ok (with_draw s false (draw_strength s)))
        by (destruct Hok as (? & ? & ? & ?); session_ok).
      destruct (spawn_arrow_ok _ Hok') as (s' & Hs' & Hoks' & Hk).
      rewrite Hs'. exists s', r. split; [reflexivity|]. split; [exact Hoks'|].
      intros _. exact Hk.
    + exists s, r. split; [reflexivity|]. split; [exact Hok|]. intros _. apply Hrefl.
  - (* CycleWeather *)
    eexists _, _. split; [reflexivity|]. split.
    + destruct Hok as (Hw & ? & ? & ?). session_ok.
      apply WeatherFacts.cycle_type_ok. exact Hw.
    + intros _ a Hin _; exact Hin.
  - (* ResetGame *)
    eexists _, _. split; [reflexivity|]. split; [exact ok_reset|]. congruence.
  - (* Fire *)
    destruct (spawn_arrow_ok _ Hok) as (s' & Hs' & Hoks' & Hk).
    unfold lift. rewrite Hs'. exists s', r. split; [reflexivity|]. split; [exact Hoks'|].
    intros _. exact Hk.
  - (* Frame *)
    unfold render_animation. destruct animate.
    + set (s1 := if is_drawing s then update_aim true (frame_dt animation_delta_time) s else s).
      assert (Hok1 : Session_ok s1 /\ arrows s1 = arrows s).
      { unfold s1. destruct (is_drawing s); [|auto].
        split; [|reflexivity]. destruct Hok as (? & ? & ? & ?); session_ok. }
      destruct Hok1 as [Hok1 Harr].
      destruct (update_simulation_ok (frame_dt animation_delta_time) s1 r Hok1)
        as (s' & r' & Hs' & Hoks' & Hk).
      exists s', r'. split; [exact Hs'|]. split; [exact Hoks'|].
      intros _ a Hin Hs. apply Hk; [rewrite Harr|]; assumption.
    + exists s, r. split; [reflexivity|]. split; [exact Hok|]. intros _. apply Hrefl.
Qed.

(** Every sequence of events runs to completion and keeps the invariant;
    without a reset it keeps every stuck arrow. *)
Lemma run_ok (es : list Event) :
  forall (s : Session) (r : RandomSource),
    Session_ok s ->
    exists s' r',
      run es s r = Some (s', r') /\ Session_ok s' /\
      (no_reset es -> keeps_stuck s s').
Proof.
  induction es as [|e rest IH]; intros s r Hok; simpl.
  - exists s, r. split; [reflexivity|]. split; [exact Hok|]. intros _ a Hin _; exact Hin.
  - destruct (handle_ok e s r Hok) as (s1 & r1 & H1 & Hok1 & Hk1).
    destruct (IH s1 r1 Hok1) as (s2 & r2 & H2 & Hok2 & Hk2).
    exists s2, r2. unfold bind. rewrite H1. split; [exact H2|]. split; [exact Hok2|].
    intros Hnr a Hin Hs. unfold no_reset in *. simpl in Hnr.
    apply Hk2; [tauto| |exact Hs]. apply Hk1; [|exact Hin|exact Hs].
    intros ->. tauto.
Qed.

End SessionFacts.

(* ================================================================== *)
(** ** The tick and its phases *)
(* ================================================================== *)

Section Tick.

Context `{Trig}.

(** C1 (as amended).  A tick runs the weather update, the target update,
    the arrow integration, the dead-arrow pruning and then the collision
    resolution: the pruning is the last statement of [update_arrows] and
    so precedes the resolver.  The state after the tick is nevertheless
    the one that the order of the specification (pruning last) yields,
    because the resolver skips dead arrows and never clears [alive]. *)
Theorem update_simulation_phase_order (dt : number) (s : Session) (r : RandomSource) :
  update_simulation dt s r =
    match Weather.update dt (weather s) r with
    | None => None
    | Some (w, r1) =>
        let s2 := update_targets dt (with_weather s w) in
        match get_weather_wind_vector s2 with
        | None => None
        | Some wind_vec =>
            let s3 := prune_dead_arrows (integrate_arrows dt wind_vec s2) in
            match resolve_arrow_target_collisions s3 with
            | None => None
            | Some s4 => Some (s4, r1)
            end
        end
    end
  /\ update_simulation dt s r = tick_as_specified dt s r.
Proof.
  unfold update_simulation, tick_as_specified, before_collisions,
    collision_input_as_specified, bind, lift, ret.
  destruct (Weather.update dt (weather s) r) as [[w r1]|]; [|split; reflexivity].
  unfold update_arrows, obind.
  destruct (get_weather_wind_vector (update_targets dt (with_weather s w)))
    as [wind_vec|]; [|split; reflexivity].
  split; [reflexivity|].
  unfold resolve_arrow_target_collisions, obind.
  cbn [arrows prune_dead_arrows integrate_arrows with_arrows target_centers targets
       score streak].
  rewrite CollisionFacts.arrows_loop_filter_alive.
  destruct (arrows_loop _ _ _ _ _) as [[[l sc] st]|]; reflexivity.
Qed.

End Tick.

(** C1 (counterexample).  With pruning last, the collision resolver would
    be handed every integrated arrow, dead ones included.  In the session
    [falling] the only arrow drops below the ground plane during the tick:
    the state in which [update_simulation] calls the resolver holds no
    arrow any more, whereas the specified order hands it the dead arrow. *)
Lemma prune_precedes_collisions_example :
  option_map (fun sr => map alive (arrows (fst sr)))
    (@before_collisions Examples.poly_trig 0.016%float Examples.falling Examples.halves)
    = Some []
  /\ option_map (fun sr => map alive (arrows (fst sr)))
       (@collision_input_as_specified Examples.poly_trig 0.016%float Examples.falling
          Examples.halves)
     = Some [false]
  /\ @before_collisions Examples.poly_trig 0.016%float Examples.falling Examples.halves
     <> @collision_input_as_specified Examples.poly_trig 0.016%float Examples.falling
          Examples.halves.
Proof.
  split; [vm_compute; reflexivity|]. split; [vm_compute; reflexivity|].
  intros Heq.
  apply (f_equal (option_map (fun sr => map alive (arrows (fst sr))))) in Heq.
  vm_compute in Heq. discriminate Heq.
Qed.

(* ================================================================== *)
(** ** Drawing and releasing the bow *)
(* ================================================================== *)

Section Draw.

Context `{Trig}.

(** C2 (as amended).  A release while drawing ends the draw and fires
    exactly one arrow when a shot is left (none otherwise); it leaves
    [draw_strength] as it is.  The charge goes back to 0 when the next
    draw begins. *)
Theorem draw_release_fires_once (s : Session) :
  Weather_ok (weather s) ->
  is_drawing s = true ->
  exists s',
    draw_release s = Some s' /\
    is_drawing s' = false /\
    draw_strength s' = draw_strength s /\
    (if shots_taken s <? max_shots s
     then shots_taken s' = shots_taken s + 1 /\
          exists a, arrows s' = arrows s ++ [a] /\ alive a = true /\ stuck a = false
     else shots_taken s' = shots_taken s /\ arrows s' = arrows s) /\
    (shots_taken s' < max_shots s' ->
     is_drawing (draw_press s') = true /\ draw_strength (draw_press s') = 0%float).
Proof.
  intros Hw Hd. unfold draw_release. rewrite Hd.
  destruct (spawn_arrow_spec (with_draw s false (draw_strength s)) Hw)
    as (s' & Hs' & [(Hfull & ->)|(Hroom & a & Ha & Hst & ->)]); simpl in *.
  - eexists. split; [exact Hs'|]. simpl. split; [reflexivity|]. split; [reflexivity|].
    split.
    + destruct (shots_taken s <? max_shots s) eqn:Hlt; [lia|]. split; reflexivity.
    + intros Hlt. lia.
  - eexists. split; [exact Hs'|]. simpl. split; [reflexivity|]. split; [reflexivity|].
    split.
    + destruct (shots_taken s <? max_shots s) eqn:Hlt; [|lia].
      split; [reflexivity|]. exists a. auto.
    + intros Hlt. unfold draw_press. simpl.
      destruct (shots_taken s + 1 <? max_shots s) eqn:Hlt'; [|lia].
      simpl. split; reflexivity.
Qed.

End Draw.

Lemma draw_release_fires_once_witness :
  exists s',
    @draw_release Examples.poly_trig Examples.charged = Some s' /\
    is_drawing s' = false /\
    draw_strength s' = draw_strength Examples.charged /\
    (if shots_taken Examples.charged <? max_shots Examples.charged
     then shots_taken s' = shots_taken Examples.charged + 1 /\
          exists a, arrows s' = arrows Examples.charged ++ [a] /\
                    alive a = true /\ stuck a = false
     else shots_taken s' = shots_taken Examples.charged /\
          arrows s' = arrows Examples.charged) /\
    (shots_taken s' < max_shots s' ->
     is_drawing (draw_press s') = true /\ draw_strength (draw_press s') = 0%float).
Proof.
  apply (@draw_release_fires_once Examples.poly_trig Examples.charged).
  - concrete_ok.
  - reflexivity.
Defined.

(** C2 (counterexample).  Releasing the half-drawn bow of [charged] fires
    one arrow and leaves the charge at one half, not at 0. *)
Lemma draw_release_keeps_charge_example :
  is_drawing Examples.charged = true /\
  exists s',
    @draw_release Examples.poly_trig Examples.charged = Some s' /\
    List.length (arrows s') = 1%nat /\
    draw_strength s' = 0.5%float /\
    draw_strength s' <> 0%float.
Proof.
  split; [reflexivity|]. eexists. split; [vm_compute; reflexivity|].
  cbn [arrows draw_strength List.length]. split; [reflexivity|]. split; [reflexivity|].
  intros Heq. apply (f_equal (fun x => PrimFloat.eqb x 0%float)) in Heq.
  vm_compute in Heq. discriminate Heq.
Qed.

(* ================================================================== *)
(** ** Ring scoring *)
(* ================================================================== *)

Module ScoringFacts.


Lemma score_in_bands_none (frac : number) (bands : list ScoringBand) :
  Forall (fun b => (frac <=? band_frac b)%float = false) bands ->
  score_in_bands frac bands = 0.
Proof.
  induction 1 as [|b bands Hb _ IH]; simpl; [reflexivity|]. rewrite Hb. exact IH.
Qed.

(** The thresholds of the table increase from band to band. *)
Lemma table_increasing :
  map (fun b => (band_frac b, band_points b)) TARGET_SCORING =
    [ (0.2%float, 10); (0.4%float, 8); (0.6%float, 6); (0.8%float, 4); (1.0%float, 2) ]
  /\ (0.2 <? 0.4)%float = true /\ (0.4 <? 0.6)%float = true
  /\ (0.6 <? 0.8)%float = true /\ (0.8 <? 1.0)%float = true.
Proof. repeat split; reflexivity. Qed.

End ScoringFacts.



(* ================================================================== *)
(** ** Stuck arrows *)
(* ================================================================== *)

Section Stuck.

Context `{Trig}.

(** C4.  An arrow that the resolver makes stuck is given the zero
    velocity, and in every state a session reaches a stuck arrow has the
    zero velocity.  From then on [Arrow.update] returns it unchanged for
    any [dt], gravity and wind, the resolver passes it over, and so a
    tick leaves it in the collection with the same position and
    velocity. *)
Theorem stuck_arrow_frozen :
  (forall (centers : list vec3) (ts : list Target) (i : nat) (a a' : Arrow)
          (sc st sc' st' : Z),
     targets_loop centers i ts a sc st = Some (a', sc', st') ->
     stuck a = false -> stuck a' = true ->
     vel a' = Vec3 0%float 0%float 0%float)
  /\ (forall (es : list Event) (r : RandomSource),
        exists s r',
          run es reset_game r = Some (s, r') /\
          forall a, In a (arrows s) -> stuck a = true ->
                    vel a = Vec3 0%float 0%float 0%float)
  /\ (forall (a : Arrow) (dt gravity : number) (wind : vec3),
        stuck a = true -> Arrow_.update dt gravity wind a = a)
  /\ (forall (centers : list vec3) (ts : list Target) (l l' : list Arrow)
             (sc st sc' st' : Z),
        arrows_loop centers ts l sc st = Some (l', sc', st') ->
        Forall2 (fun a a' => stuck a = true -> a' = a) l l')
  /\ (forall (s : Session) (dt : number) (r : RandomSource),
        Session_ok s ->
        exists s' r',
          update_simulation dt s r = Some (s', r') /\
          forall a, In a (arrows s) -> stuck a = true -> In a (arrows s')).
Proof.
  split.
  { intros centers ts i a a' sc st sc' st' Hloop Hfree Hstuck.
    apply CollisionFacts.targets_loop_outcome in Hloop.
    inversion Hloop; subst; [congruence | reflexivity]. }
  split.
  { intros es r.
    destruct (run_ok es reset_game r ok_reset) as (s & r' & Hrun & Hok & _).
    exists s, r'. split; [exact Hrun|]. intros a Hin Hs.
    destruct Hok as (_ & _ & _ & Harrows). rewrite Forall_forall in Harrows.
    apply (Harrows a Hin Hs). }
  split.
  { intros a dt gravity wind Hs. apply ArrowFacts.update_stuck. exact Hs. }
  split.
  { intros centers ts l l' sc st sc' st' Hloop.
    apply CollisionFacts.arrows_loop_resolved in Hloop.
    induction Hloop as [|a a' l l' Hr _ IH]; constructor; [|exact IH].
    intros Hs. exact (CollisionFacts.resolved_stuck _ _ Hr Hs). }
  intros s dt r Hok.
  destruct (update_simulation_ok dt s r Hok) as (s' & r' & Hs' & _ & Hk).
  exists s', r'. split; [exact Hs' | exact Hk].
Qed.

(** C8.  In every state a session reaches, a stuck arrow is alive; the
    pruning keeps every arrow that is alive; and through every sequence
    of events of one session (ticks with any time step, shots, weather
    changes, aiming) a stuck arrow stays in the arrow collection. *)
Theorem stuck_arrow_stays :
  (forall (es : list Event) (r : RandomSource),
     exists s r',
       run es reset_game r = Some (s, r') /\
       forall a, In a (arrows s) -> stuck a = true -> alive a = true)
  /\ (forall (s : Session) (a : Arrow),
        In a (arrows s) -> alive a = true -> In a (arrows (prune_dead_arrows s)))
  /\ (forall (s : Session) (a : Arrow),
        In a (arrows (prune_dead_arrows s)) -> In a (arrows s) /\ alive a = true)
  /\ (forall (s : Session) (es : list Event) (r : RandomSource) (a : Arrow),
        Session_ok s -> no_reset es ->
        In a (arrows s) -> stuck a = true ->
        exists s' r', run es s r = Some (s', r') /\ In a (arrows s')).
Proof.
  split.
  { intros es r.
    destruct (run_ok es reset_game r ok_reset) as (s & r' & Hrun & Hok & _).
    exists s, r'. split; [exact Hrun|]. intros a Hin Hs.
    destruct Hok as (_ & _ & _ & Harrows). rewrite Forall_forall in Harrows.
    apply (Harrows a Hin Hs). }
  split.
  { intros s a Hin Ha. simpl. apply filter_In. auto. }
  split.
  { intros s a Hin. simpl in Hin. apply filter_In in Hin. exact Hin. }
  intros s es r a Hok Hnr Hin Hs.
  destruct (run_ok es s r Hok) as (s' & r' & Hrun & _ & Hk).
  exists s', r'. split; [exact Hrun|]. exact (Hk Hnr a Hin Hs).
Qed.

End Stuck.

Lemma stuck_arrow_frozen_witness :
  vel Examples.planted = Vec3 0%float 0%float 0%float
  /\ Arrow_.update 0.03125%float (-15)%float (Vec3 6%float 0%float 2%float)
       Examples.planted = Examples.planted
  /\ Forall2 (fun a a' => stuck a = true -> a' = a)
       [Examples.planted; Examples.on_axis] [Examples.planted; Examples.planted]
  /\ exists s' r',
       @update_simulation Examples.poly_trig 0.03125%float Examples.range_with_planted
         Examples.halves = Some (s', r') /\
       forall a, In a (arrows Examples.range_with_planted) -> stuck a = true ->
                 In a (arrows s').
Proof.
  destruct (@stuck_arrow_frozen Examples.poly_trig) as (Hzero & _ & Hupd & Hloop & Htick).
  split.
  { apply (Hzero [Examples.near_center] [Examples.near_target] 0%nat Examples.on_axis
             Examples.planted 0 0 10 1); reflexivity. }
  split.
  { apply Hupd. reflexivity. }
  split.
  { apply (Hloop [Examples.near_center] [Examples.near_target]
             [Examples.planted; Examples.on_axis] [Examples.planted; Examples.planted]
             0 0 10 1).
    reflexivity. }
  apply Htick. concrete_ok. constructor; [|constructor].
  intros _. split; reflexivity.
Defined.

Lemma stuck_arrow_stays_witness :
  In Examples.planted (arrows (prune_dead_arrows Examples.range_with_planted))
  /\ exists s' r',
       @run Examples.poly_trig
         [Frame true 16%float; CycleWeather; AimUp; Fire; Frame true 16%float]
         Examples.range_with_planted Examples.halves = Some (s', r') /\
       In Examples.planted (arrows s').
Proof.
  destruct (@stuck_arrow_stays Examples.poly_trig) as (_ & Hprune & _ & Hstay).
  split.
  { apply Hprune; [simpl; left; reflexivity | reflexivity]. }
  apply Hstay.
  - concrete_ok. constructor; [|constructor].
    intros _. split; reflexivity.
  - unfold no_reset. simpl. intros [Hf|[Hf|[Hf|[Hf|[Hf|[]]]]]]; discriminate Hf.
  - simpl. left. reflexivity.
  - reflexivity.
Defined.

(* ================================================================== *)
(** ** The shot budget *)
(* ================================================================== *)

Section Budget.

Context `{Trig}.

Lemma spawn_arrow_budget (s s' : Session) :
  spawn_arrow s = Some s' ->
  shots_taken s <= max_shots s ->
  shots_taken s' <= max_shots s' /\ max_shots s' = max_shots s.
Proof.
  unfold spawn_arrow. destruct (shots_taken s >=? max_shots s) eqn:Hb.
  - intros [= <-] Hle. split; [exact Hle | reflexivity].
  - destruct (get_weather_wind_vector s) as [wind|]; simpl; [|discriminate].
    intros [= <-] Hle. simpl. split; [lia | reflexivity].
Qed.

(** C5.  Through every sequence of events from a fresh session,
    [shots_taken] stays within [max_shots], which is 20; from any state
    within its budget, any number of fire requests keeps it there; and a
    fire request at [shots_taken = max_shots] returns the session
    unchanged, arrows, score and streak included. *)
Theorem shot_budget :
  (forall (es : list Event) (r : RandomSource),
     exists s r',
       run es reset_game r = Some (s, r') /\
       0 <= shots_taken s <= max_shots s /\ max_shots s = 20)
  /\ (forall (n : nat) (s s' : Session) (r r' : RandomSource),
        shots_taken s <= max_shots s ->
        run (repeat Fire n) s r = Some (s', r') ->
        shots_taken s' <= max_shots s' /\ max_shots s' = max_shots s)
  /\ (forall s : Session,
        shots_taken s = max_shots s -> spawn_arrow s = Some s).
Proof.
  split.
  { intros es r.
    destruct (run_ok es reset_game r ok_reset) as (s & r' & Hrun & Hok & _).
    exists s, r'. split; [exact Hrun|].
    destruct Hok as (_ & Hshots & Hmax & _). auto. }
  split.
  { induction n as [|n IH]; simpl; intros s s' r r' Hle Hrun.
    - injection Hrun as <- _. split; [exact Hle | reflexivity].
    - unfold bind, lift in Hrun.
      destruct (spawn_arrow s) as [s1|] eqn:Hs1; [|discriminate].
      destruct (spawn_arrow_budget s s1 Hs1 Hle) as [Hle1 Hmax1].
      destruct (IH s1 s' r r' Hle1 Hrun) as [Hle' Hmax'].
      split; [exact Hle' | congruence]. }
  intros s Heq. unfold spawn_arrow.
  destruct (shots_taken s >=? max_shots s) eqn:Hb; [reflexivity|lia].
Qed.

End Budget.

Lemma shot_budget_witness :
  @spawn_arrow Examples.poly_trig Examples.spent = Some Examples.spent
  /\ forall s' r',
       @run Examples.poly_trig (repeat Fire 3) Examples.spent Examples.halves
         = Some (s', r') ->
       shots_taken s' <= max_shots s' /\ max_shots s' = max_shots Examples.spent.
Proof.
  destruct (@shot_budget Examples.poly_trig) as (_ & Hseq & Hnoop).
  split.
  - apply Hnoop. reflexivity.
  - intros s' r'. apply Hseq. simpl. lia.
Defined.

(* ================================================================== *)
(** ** The particle cap *)
(* ================================================================== *)

(** C6.  Through every sequence of events from a fresh session the number
    of live particles is at most 400.  On a well-formed weather system a
    spawn loop of any count and an update with any time step return and
    leave at most 400 particles, and a spawn attempted at capacity is
    skipped: it returns the system as it is and draws no sample. *)
Theorem particle_cap :
  (forall (T : Trig) (es : list Event) (r : RandomSource),
     exists s r',
       @run T es reset_game r = Some (s, r') /\
       (List.length (particles (weather s)) <= 400)%nat)
  /\ (forall (w : WeatherSystem) (count : nat) (r : RandomSource),
        Weather_ok w ->
        exists w' r',
          Weather.spawn_loop count w r = Some (w', r') /\
          Weather_ok w' /\ (List.length (particles w') <= 400)%nat)
  /\ (forall (w : WeatherSystem) (dt : number) (r : RandomSource),
        Weather_ok w ->
        exists w' r',
          Weather.update dt w r = Some (w', r') /\
          Weather_ok w' /\ (List.length (particles w') <= 400)%nat)
  /\ (forall (w : WeatherSystem) (r : RandomSource),
        Weather_ok w ->
        List.length (particles w) = 400%nat ->
        Weather.spawn_particle w r = Some (w, r)).
Proof.
  split.
  { intros T es r.
    destruct (@run_ok T es reset_game r ok_reset) as (s & r' & Hrun & Hok & _).
    exists s, r'. split; [exact Hrun|]. destruct Hok as ((_ & _ & _ & Hl) & _). exact Hl. }
  split.
  { intros w count r Hok.
    destruct (WeatherFacts.spawn_loop_spec count w r Hok) as (w' & r' & Hs & Hok' & _).
    exists w', r'. split; [exact Hs|]. split; [exact Hok'|].
    destruct Hok' as (_ & _ & _ & Hl). exact Hl. }
  split.
  { intros w dt r Hok.
    destruct (WeatherFacts.update_spec dt w r Hok) as (w' & r' & Hs & Hok' & _).
    exists w', r'. split; [exact Hs|]. split; [exact Hok'|].
    destruct Hok' as (_ & _ & _ & Hl). exact Hl. }
  intros w r Hok Hfull. apply WeatherFacts.spawn_particle_at_capacity; [exact Hok|].
  destruct Hok as (_ & _ & Hm & _). rewrite Hm, Hfull. apply Nat.le_refl.
Qed.

Lemma particle_cap_witness :
  Weather.spawn_particle Examples.full_rain Examples.halves
    = Some (Examples.full_rain, Examples.halves)
  /\ (exists w' r',
        Weather.spawn_loop 10 Examples.full_rain Examples.halves = Some (w', r') /\
        Weather_ok w' /\ (List.length (particles w') <= 400)%nat)
  /\ exists w' r',
       Weather.update 0.03125%float Examples.full_rain Examples.halves = Some (w', r') /\
       Weather_ok w' /\ (List.length (particles w') <= 400)%nat.
Proof.
  assert (Hok : Weather_ok Examples.full_rain).
  { unfold Weather_ok. split; [reflexivity|]. split; [simpl; lia|].
    split; [reflexivity|].
    unfold Examples.full_rain. cbn [particles]. rewrite repeat_length. lia. }
  destruct particle_cap as (_ & Hloop & Hupd & Hskip).
  split; [|split].
  - apply Hskip; [exact Hok | vm_compute; reflexivity].
  - apply Hloop. exact Hok.
  - apply Hupd. exact Hok.
Defined.

(* ================================================================== *)
(** ** Cycling the weather *)
(* ================================================================== *)

(** C7.  [cycle_type] steps through clear, wind, rain, snow and back to
    clear, so four cycles in a row return to the preset they started
    from.  The particles are emptied exactly when the new preset is clear
    and are kept otherwise; after arriving at clear the next update
    spawns nothing and leaves the collection empty. *)
Theorem weather_cycle (w : WeatherSystem) :
  Weather_ok w ->
  (Weather.type w = Some "clear"%string ->
     Weather.type (Weather.cycle_type w) = Some "wind"%string)
  /\ (Weather.type w = Some "wind"%string ->
        Weather.type (Weather.cycle_type w) = Some "rain"%string)
  /\ (Weather.type w = Some "rain"%string ->
        Weather.type (Weather.cycle_type w) = Some "snow"%string)
  /\ (Weather.type w = Some "snow"%string ->
        Weather.type (Weather.cycle_type w) = Some "clear"%string)
  /\ (let w4 := Weather.cycle_type (Weather.cycle_type
                  (Weather.cycle_type (Weather.cycle_type w))) in
      current_index w4 = current_index w /\
      Weather.type w4 = Weather.type w /\
      Weather.preset w4 = Weather.preset w)
  /\ (Weather.type (Weather.cycle_type w) = Some "clear"%string ->
        particles (Weather.cycle_type w) = [])
  /\ (Weather.type (Weather.cycle_type w) <> Some "clear"%string ->
        particles (Weather.cycle_type w) = particles w)
  /\ (Weather.type (Weather.cycle_type w) = Some "clear"%string ->
        forall (dt : number) (r : RandomSource),
          Weather.update dt (Weather.cycle_type w) r = Some (Weather.cycle_type w, r)).
Proof.
  intros (Ht & Hi & Hm & Hl). destruct w as [ps mx tys idx]. simpl in *. subst tys.
  destruct idx as [|[|[|[|n]]]]; try lia; cbn;
    repeat split; intros; try reflexivity; try discriminate; try congruence.
Qed.

Lemma weather_cycle_witness :
  Weather.type (Weather.cycle_type Examples.snowing) = Some "clear"%string
  /\ particles (Weather.cycle_type Examples.snowing) = []
  /\ Weather.update 0.03125%float (Weather.cycle_type Examples.snowing) Examples.halves
     = Some (Weather.cycle_type Examples.snowing, Examples.halves).
Proof.
  assert (Hok : Weather_ok Examples.snowing).
  { unfold Weather_ok. simpl. repeat split; lia. }
  destruct (weather_cycle Examples.snowing Hok)
    as (_ & _ & _ & Hsnow & _ & Hempty & _ & Hnext).
  assert (Hclear : Weather.type (Weather.cycle_type Examples.snowing) = Some "clear"%string)
    by (apply Hsnow; reflexivity).
  split; [exact Hclear|]. split; [exact (Hempty Hclear)|]. exact (Hnext Hclear _ _).
Defined.

(** C10.  [cycle_type] changes the index of the current preset and, on
    arriving at clear, the particle collection, and nothing else: the cap
    and the list of types stay, and on arriving at wind, rain or snow the
    particles stay as they are.  Cycling the weather of a session changes
    no field of the session but its weather system. *)
Theorem cycle_type_frame (w : WeatherSystem) :
  Weather_ok w ->
  max_particles (Weather.cycle_type w) = max_particles w
  /\ weather_types (Weather.cycle_type w) = weather_types w
  /\ current_index (Weather.cycle_type w) = ((current_index w + 1) mod 4)%nat
  /\ (forall name : string,
        Weather.type (Weather.cycle_type w) = Some name ->
        name = "wind"%string \/ name = "rain"%string \/ name = "snow"%string ->
        particles (Weather.cycle_type w) = particles w)
  /\ (forall s : Session,
        weather s = w ->
        cycle_weather s =
          mkSession (score s) (shots_taken s) (max_shots s) (streak s) (aim_yaw s)
            (aim_pitch s) (aim_sensitivity s) (is_drawing s) (draw_strength s)
            (max_draw_strength s) (arrows s) (gravity s) (Weather.cycle_type w)
            (target_centers s) (targets s)).
Proof.
  intros Hok. rewrite (WeatherFacts.cycle_type_fields w Hok).
  cbn [particles max_particles weather_types current_index].
  split; [reflexivity|]. split; [reflexivity|]. split; [reflexivity|]. split.
  - intros name Hname Hnot. destruct Hok as (Ht & Hi & _).
    unfold Weather.type in Hname. cbn [weather_types current_index] in Hname.
    rewrite Ht in Hname.
    destruct (current_index w) as [|[|[|[|n]]]]; try lia; cbn in *; try reflexivity.
    injection Hname as <-. destruct Hnot as [Hn|[Hn|Hn]]; discriminate Hn.
  - intros s <-. unfold cycle_weather, with_weather.
    rewrite (WeatherFacts.cycle_type_fields (weather s) Hok). reflexivity.
Qed.

Lemma cycle_type_frame_witness :
  Weather.type (Weather.cycle_type Examples.full_rain) = Some "snow"%string
  /\ particles (Weather.cycle_type Examples.full_rain) = particles Examples.full_rain
  /\ max_particles (Weather.cycle_type Examples.full_rain) = 400%nat.
Proof.
  assert (Hok : Weather_ok Examples.full_rain).
  { unfold Weather_ok. split; [reflexivity|]. split; [simpl; lia|].
    split; [reflexivity|].
    unfold Examples.full_rain. cbn [particles]. rewrite repeat_length. lia. }
  destruct (cycle_type_frame Examples.full_rain Hok) as (Hmax & _ & _ & Hkeep & _).
  split; [reflexivity|]. split.
  - apply (Hkeep "snow"%string); [reflexivity | right; right; reflexivity].
  - rewrite Hmax. reflexivity.
Defined.

(* ================================================================== *)
(** ** The time step of a frame *)
(* ================================================================== *)

Section FrameStep.

Context `{Trig}.

(** C9.  The time step of a frame is [Math.min] of the elapsed time in
    seconds and 1/30: the elapsed time itself when that is at most 1/30,
    and 1/30 when it is more (and [NaN] for a [NaN] input).  There is no
    lower bound: an elapsed time of zero or less goes through unchanged.
    This value is the [dt] handed to [update_simulation]. *)
Theorem frame_dt_upper_clamp (animation_delta_time : number) :
  let t := (animation_delta_time / 1000)%float in
  frame_dt animation_delta_time = Math_min t GAME_CONFIG.dtClamp
  /\ ((t <=? GAME_CONFIG.dtClamp)%float = true -> frame_dt animation_delta_time = t)
  /\ ((GAME_CONFIG.dtClamp <? t)%float = true ->
        frame_dt animation_delta_time = GAME_CONFIG.dtClamp)
  /\ (PrimFloat.is_nan t = true -> frame_dt animation_delta_time = PrimFloat.nan)
  /\ ((t <=? 0)%float = true -> frame_dt animation_delta_time = t)
  /\ (forall s : Session,
        render_animation true animation_delta_time s =
          update_simulation (frame_dt animation_delta_time)
            (if is_drawing s
             then update_aim true (frame_dt animation_delta_time) s
             else s)).
Proof.
  intros t. unfold frame_dt. fold t.
  split; [reflexivity|]. split.
  { intros Hle. apply FloatFacts.Math_min_left; [exact Hle | reflexivity]. }
  split.
  { intros Hgt. apply FloatFacts.Math_min_right. exact Hgt. }
  split.
  { intros Hnan. unfold Math_min. rewrite Hnan. reflexivity. }
  split.
  { intros Hneg.
    assert (Hlt : (t <? GAME_CONFIG.dtClamp)%float = true).
    { apply (FloatFacts.leb_zero_ltb_positive t GAME_CONFIG.dtClamp
               4803839602528529%positive (-57)%Z Hneg).
      reflexivity. }
    destruct (FloatFacts.ltb_true _ _ Hlt) as (Hx & Hy & _).
    unfold Math_min. rewrite Hx, Hy, Hlt. reflexivity. }
  intros s. reflexivity.
Qed.

End FrameStep.

Lemma frame_dt_upper_clamp_witness :
  frame_dt (-16)%float = ((-16) / 1000)%float
  /\ frame_dt 16%float = (16 / 1000)%float
  /\ frame_dt 250%float = GAME_CONFIG.dtClamp
  /\ frame_dt PrimFloat.nan = PrimFloat.nan.
Proof.
  destruct (@frame_dt_upper_clamp Examples.poly_trig (-16)%float)
    as (_ & _ & _ & _ & Hneg & _).
  destruct (@frame_dt_upper_clamp Examples.poly_trig 16%float)
    as (_ & Hle & _).
  destruct (@frame_dt_upper_clamp Examples.poly_trig 250%float)
    as (_ & _ & Hgt & _).
  destruct (@frame_dt_upper_clamp Examples.poly_trig PrimFloat.nan)
    as (_ & _ & _ & Hnan & _).
  split; [|split; [|split]].
  - apply Hneg. reflexivity.
  - apply Hle. reflexivity.
  - apply Hgt. reflexivity.
  - apply Hnan. reflexivity.
Defined.

(* ================================================================== *)
(** ** The order of binary64 numbers, [Math.min] and [Math.max] *)
(* ================================================================== *)

Module FloatOrder.

Local Open Scope float_scope.

Lemma nan_is_nan (x : float) : Prim2SF x = S754_nan -> PrimFloat.is_nan x = true.
Proof.
  intros Hx. unfold PrimFloat.is_nan. rewrite FloatAxioms.eqb_spec, Hx. reflexivity.
Qed.

Lemma SFcompare_defined (f g : spec_float) :
  f <> S754_nan -> g <> S754_nan -> exists c, SFcompare f g = Some c.
Proof.
  intros Hf Hg. destruct f as [s| s | | s m e], g as [s'| s' | | s' m' e'];
    try congruence; simpl; eexists; reflexivity.
Qed.

Lemma compare_defined (x y : float) :
  PrimFloat.is_nan x = false -> PrimFloat.is_nan y = false ->
  exists c, SFcompare (Prim2SF x) (Prim2SF y) = Some c.
Proof.
  intros Hx Hy. apply SFcompare_defined; intros Hn; apply nan_is_nan in Hn; congruence.
Qed.

Lemma leb_refl (x : float) : PrimFloat.is_nan x = false -> (x <=? x) = true.
Proof.
  intros Hx. destruct (compare_defined x x Hx Hx) as [c Hc].
  rewrite FloatAxioms.leb_spec. unfold SFleb.
  rewrite (FloatFacts.SFcompare_refl _ _ _ Hc). reflexivity.
Qed.

Lemma ltb_leb (x y : float) : (x <? y) = true -> (x <=? y) = true.
Proof.
  rewrite FloatAxioms.ltb_spec, FloatAxioms.leb_spec. unfold SFltb, SFleb.
  destruct (SFcompare (Prim2SF x) (Prim2SF y)) as [[| |]|]; congruence.
Qed.

(** Neither below the other and both numbers: each is at most the other. *)
Lemma tie_leb (x y : float) :
  PrimFloat.is_nan x = false -> PrimFloat.is_nan y = false ->
  (x <? y) = false -> (y <? x) = false ->
  (x <=? y) = true /\ (y <=? x) = true.
Proof.
  intros Hx Hy. destruct (compare_defined x y Hx Hy) as [c Hc].
  rewrite !FloatAxioms.ltb_spec, !FloatAxioms.leb_spec. unfold SFltb, SFleb.
  rewrite (FloatFacts.SFcompare_antisym (Prim2SF x) (Prim2SF y)), Hc.
  destruct c; simpl; intros; split; congruence.
Qed.

(** [Math.min] is [NaN] or at most each argument. *)
Lemma Math_min_lower (x y : float) :
  PrimFloat.is_nan (Math_min x y) = false ->
  (Math_min x y <=? x) = true /\ (Math_min x y <=? y) = true.
Proof.
  unfold Math_min.
  destruct (PrimFloat.is_nan x) eqn:Hx; [simpl; discriminate|].
  destruct (PrimFloat.is_nan y) eqn:Hy; [simpl; discriminate|]. simpl.
  destruct (x <? y) eqn:Hxy.
  - intros _. split; [apply leb_refl; exact Hx | apply ltb_leb; exact Hxy].
  - destruct (y <? x) eqn:Hyx.
    + intros _. split; [apply ltb_leb; exact Hyx | apply leb_refl; exact Hy].
    + destruct (tie_leb x y Hx Hy Hxy Hyx) as [Hle Hge].
      destruct (is_neg_zero y); intros _; split; auto using leb_refl.
Qed.

(** [Math.max] is [NaN] or at least each argument. *)
Lemma Math_max_upper (x y : float) :
  PrimFloat.is_nan (Math_max x y) = false ->
  (x <=? Math_max x y) = true /\ (y <=? Math_max x y) = true.
Proof.
  unfold Math_max.
  destruct (PrimFloat.is_nan x) eqn:Hx; [simpl; discriminate|].
  destruct (PrimFloat.is_nan y) eqn:Hy; [simpl; discriminate|]. simpl.
  destruct (y <? x) eqn:Hyx.
  - intros _. split; [apply leb_refl; exact Hx | apply ltb_leb; exact Hyx].
  - destruct (x <? y) eqn:Hxy.
    + intros _. split; [apply ltb_leb; exact Hxy | apply leb_refl; exact Hy].
    + destruct (tie_leb x y Hx Hy Hxy Hyx) as [Hle Hge].
      destruct (is_neg_zero x); intros _; split; auto using leb_refl.
Qed.

Lemma SFleb_trans (f g h : spec_float) :
  SFleb f g = true -> SFleb g h = true -> SFleb f h = true.
Proof.
  unfold SFleb.
  destruct f as [s1| s1 | | s1 m1 e1], g as [s2| s2 | | s2 m2 e2],
           h as [s3| s3 | | s3 m3 e3]; simpl;
    try discriminate; try reflexivity;
    try (destruct s1; simpl; try discriminate; try reflexivity; fail);
    try (destruct s2; simpl; try discriminate; try reflexivity; fail);
    try (destruct s3; simpl; try discriminate; try reflexivity; fail);
    try (destruct s1, s2; simpl; try discriminate; try reflexivity; fail);
    try (destruct s2, s3; simpl; try discriminate; try reflexivity; fail);
    try (destruct s1, s3; simpl; try discriminate; try reflexivity; fail);
    try (destruct s1, s2, s3; simpl; try discriminate; try reflexivity; fail).
  destruct s1, s2, s3; simpl; try discriminate; try reflexivity.
  - (* all negative *)
    destruct (Z.compare_spec e1 e2), (Z.compare_spec e2 e3), (Z.compare_spec e1 e3);
      try lia; simpl; try discriminate; try reflexivity; subst;
      change (PosDef.Pos.compare_cont Eq) with Pos.compare;
      destruct (Pos.compare_spec m1 m2), (Pos.compare_spec m2 m3),
               (Pos.compare_spec m1 m3); simpl; try discriminate; try reflexivity; lia.
  - (* all positive *)
    destruct (Z.compare_spec e1 e2), (Z.compare_spec e2 e3), (Z.compare_spec e1 e3);
      try lia; simpl; try discriminate; try reflexivity; subst;
      change (PosDef.Pos.compare_cont Eq) with Pos.compare;
      destruct (Pos.compare_spec m1 m2), (Pos.compare_spec m2 m3),
               (Pos.compare_spec m1 m3); simpl; try discriminate; try reflexivity; lia.
Qed.

Lemma leb_trans (x y z : float) :
  (x <=? y) = true -> (y <=? z) = true -> (x <=? z) = true.
Proof. rewrite !FloatAxioms.leb_spec. apply SFleb_trans. Qed.

End FloatOrder.

(* ================================================================== *)
(** ** How one event and one tick change a session *)
(* ================================================================== *)

Module StepFacts.

Lemma points_range (frac : number) : 0 <= score_for_radius_fraction frac <= 10.
Proof.
  unfold score_for_radius_fraction, TARGET_SCORING. simpl.
  repeat match goal with |- context [if ?b then _ else _] => destruct b end;
    clear frac; lia.
Qed.

(** A pass over the targets leaves the arrow, or sticks it and adds the
    points of some ring fraction. *)
Lemma targets_loop_points (centers : list vec3) (ts : list Target) :
  forall (i : nat) (a a' : Arrow) (sc st sc' st' : Z),
    targets_loop centers i ts a sc st = Some (a', sc', st') ->
    (a' = a /\ sc' = sc /\ st' = st) \/
    (exists hit_pos frac,
       a' = stick a hit_pos /\
       sc' = sc + score_for_radius_fraction frac /\
       st' = if score_for_radius_fraction frac >=? 8 then st + 1 else 0).
Proof.
  induction ts as [|target rest IH]; simpl; intros i a a' sc st sc' st' Hres.
  - injection Hres as <- <- <-. left. auto.
  - destruct (nth_error centers i) as [center|]; [|discriminate].
    destruct (plane_hit a center target) as [[hit_pos r]|].
    + injection Hres as <- <- <-. right. eexists _, _. auto.
    + eapply IH; eassumption.
Qed.

Lemma stuck_count_cons (a : Arrow) (l : list Arrow) :
  stuck_count (a :: l) = (if stuck a then 1 else 0) + stuck_count l.
Proof.
  unfold stuck_count. cbn [filter]. destruct (stuck a); cbn [List.length]; lia.
Qed.

Lemma stuck_count_nonneg (l : list Arrow) : 0 <= stuck_count l.
Proof. unfold stuck_count. lia. Qed.

Lemma stuck_count_app (l l' : list Arrow) :
  stuck_count (l ++ l') = stuck_count l + stuck_count l'.
Proof.
  unfold stuck_count. rewrite filter_app, length_app. lia.
Qed.

Lemma stuck_count_length (l : list Arrow) : stuck_count l <= Z.of_nat (List.length l).
Proof.
  unfold stuck_count. pose proof (filter_length_le stuck l). lia.
Qed.

(** What the collision loop does to the score and the streak: each arrow
    that sticks adds at most ten points and at most one to the streak. *)
Lemma arrows_loop_score (centers : list vec3) (ts : list Target) (l : list Arrow) :
  forall (sc st : Z) (l' : list Arrow) (sc' st' : Z),
    arrows_loop centers ts l sc st = Some (l', sc', st') ->
    sc <= sc' <= sc + 10 * (stuck_count l' - stuck_count l) /\
    stuck_count l <= stuck_count l' /\
    (0 <= st -> 0 <= st' <= st + (stuck_count l' - stuck_count l)).
Proof.
  induction l as [|a rest IH]; cbn [arrows_loop]; intros sc st l' sc' st' Hres.
  - injection Hres as <- <- <-. lia.
  - destruct (negb (alive a) || stuck a) eqn:Hskip.
    + destruct (arrows_loop centers ts rest sc st) as [[[rest' sc1] st1]|] eqn:Hrest;
        [|discriminate].
      injection Hres as <- <- <-. specialize (IH _ _ _ _ _ Hrest).
      rewrite !stuck_count_cons. lia.
    + apply orb_false_elim in Hskip as [_ Hs].
      destruct (targets_loop centers 0 ts a sc st) as [[[a1 sc1] st1]|] eqn:Hts;
        [|discriminate].
      destruct (arrows_loop centers ts rest sc1 st1) as [[[rest' sc2] st2]|] eqn:Hrest;
        [|discriminate].
      injection Hres as <- <- <-. specialize (IH _ _ _ _ _ Hrest).
      rewrite !stuck_count_cons, Hs.
      apply targets_loop_points in Hts
        as [(-> & -> & ->)|(hit_pos & frac & -> & -> & ->)].
      * rewrite Hs. lia.
      * simpl stuck. pose proof (points_range frac) as Hp.
        generalize dependent (score_for_radius_fraction frac). clear frac.
        intros pts Hp. destruct (pts >=? 8); lia.
Qed.

(** Integrating and pruning keeps the stuck arrows and loses none of
    them. *)
Lemma prune_keeps_stuck_count (dt g : number) (wind : vec3) (l : list Arrow) :
  Forall Arrow_ok l ->
  stuck_count (filter alive (map (Arrow_.update dt g wind) l)) = stuck_count l.
Proof.
  induction 1 as [|a l Ha _ IH]; simpl; [reflexivity|].
  destruct (stuck a) eqn:Hs.
  - rewrite (ArrowFacts.update_stuck dt g wind a Hs).
    destruct (Ha Hs) as [Halive _]. rewrite Halive.
    rewrite !stuck_count_cons, Hs, IH. reflexivity.
  - destruct (alive (Arrow_.update dt g wind a)) eqn:Hal.
    + rewrite !stuck_count_cons, ArrowFacts.update_keeps_stuck_flag, Hs, IH. reflexivity.
    + rewrite stuck_count_cons, Hs, IH. reflexivity.
Qed.

Section Steps.

Context `{Trig}.

(** A tick, spelled out: the new weather, the advanced targets and their
    centres, the arrows integrated, pruned and resolved; every other field
    as it was. *)
Lemma update_simulation_steps (dt : number) (s s' : Session) (r r' : RandomSource) :
  update_simulation dt s r = Some (s', r') ->
  exists w wind l sc st,
    Weather.update dt (weather s) r = Some (w, r') /\
    get_weather_wind_vector (with_weather s w) = Some wind /\
    arrows_loop (map Target_.get_center (map (Target_.update dt) (targets s)))
                (map (Target_.update dt) (targets s))
                (filter alive (map (Arrow_.update dt (gravity s) wind) (arrows s)))
                (score s) (streak s) = Some (l, sc, st) /\
    s' = mkSession sc (shots_taken s) (max_shots s) st (aim_yaw s) (aim_pitch s)
           (aim_sensitivity s) (is_drawing s) (draw_strength s)
           (max_draw_strength s) l (gravity s) w
           (map Target_.get_center (map (Target_.update dt) (targets s)))
           (map (Target_.update dt) (targets s)).
Proof.
  unfold update_simulation, before_collisions, bind, lift.
  destruct (Weather.update dt (weather s) r) as [[w r1]|] eqn:Hw; [|discriminate].
  unfold update_arrows, obind.
  change (get_weather_wind_vector (update_targets dt (with_weather s w)))
    with (get_weather_wind_vector (with_weather s w)).
  destruct (get_weather_wind_vector (with_weather s w)) as [wind|] eqn:Hwind;
    [|discriminate].
  unfold resolve_arrow_target_collisions, obind.
  cbn [arrows prune_dead_arrows integrate_arrows with_arrows target_centers targets
       score streak update_targets with_targets with_weather gravity].
  destruct (arrows_loop _ _ _ _ _) as [[[l sc] st]|] eqn:Hloop; [|discriminate].
  intros [= <- <-]. exists w, wind, l, sc, st.
  split; [reflexivity|]. split; [exact Hwind|]. split; [exact Hloop | reflexivity].
Qed.

(** [spawn_arrow], read backwards. *)
Lemma spawn_arrow_inv (s s' : Session) :
  spawn_arrow s = Some s' ->
  (max_shots s <= shots_taken s /\ s' = s) \/
  (shots_taken s < max_shots s /\
   exists a, alive a = true /\ stuck a = false /\ prev_pos a = pos a /\
     s' = mkSession (score s) (shots_taken s + 1) (max_shots s) (streak s)
            (aim_yaw s) (aim_pitch s) (aim_sensitivity s) (is_drawing s)
            (draw_strength s) (max_draw_strength s) (arrows s ++ [a])
            (gravity s) (weather s) (target_centers s) (targets s)).
Proof.
  unfold spawn_arrow. destruct (shots_taken s >=? max_shots s) eqn:Hb.
  - intros [= <-]. left. split; [lia | reflexivity].
  - destruct (get_weather_wind_vector s) as [wind|]; simpl; [|discriminate].
    intros [= <-]. right. split; [lia|]. eexists.
    split; [|split; [|split; [|reflexivity]]]; reflexivity.
Qed.

(** A property kept by every event of a given kind is kept by every run
    of such events. *)
Lemma run_preserves (Q : Event -> Prop) (P : Session -> Prop) :
  (forall e s r s' r', Q e -> P s -> handle e s r = Some (s', r') -> P s') ->
  forall es s r s' r',
    Forall Q es -> P s -> run es s r = Some (s', r') -> P s'.
Proof.
  intros Hstep. induction es as [|e rest IH]; simpl; intros s r s' r' HQ HP Hrun.
  - injection Hrun as <- _. exact HP.
  - apply Forall_cons_iff in HQ as [He Hrest]. unfold bind in Hrun.
    destruct (handle e s r) as [[s1 r1]|] eqn:H1; [|discriminate].
    exact (IH s1 r1 s' r' Hrest (Hstep e s r s1 r1 He HP H1) Hrun).
Qed.

Lemma handle_keeps_ok (e : Event) (s s' : Session) (r r' : RandomSource) :
  Session_ok s -> handle e s r = Some (s', r') -> Session_ok s'.
Proof.
  intros Hok Hh. destruct (handle_ok e s r Hok) as (s1 & r1 & H1 & Hok1 & _).
  rewrite Hh in H1. injection H1 as -> _. exact Hok1.
Qed.

End Steps.

End StepFacts.

(* ================================================================== *)
(** ** The arrow collection, the score and the streak *)
(* ================================================================== *)

Section ArrowBook.

Context `{Trig}.

Lemma Arrows_book_ext (s s' : Session) :
  arrows s' = arrows s -> shots_taken s' = shots_taken s ->
  score s' = score s -> streak s' = streak s ->
  Arrows_book s -> Arrows_book s'.
Proof. unfold Arrows_book. intros -> -> -> ->. auto. Qed.

Lemma spawn_keeps_book (s s' : Session) :
  spawn_arrow s = Some s' -> Arrows_book s -> Arrows_book s'.
Proof.
  intros Hs (Halive & Hcount & Hscore & Hstreak).
  apply StepFacts.spawn_arrow_inv in Hs
    as [(_ & ->)|(_ & a & Ha & Hst & _ & ->)]; [unfold Arrows_book; auto|].
  unfold Arrows_book. cbn [arrows shots_taken score streak].
  rewrite StepFacts.stuck_count_app, StepFacts.stuck_count_cons, Hst, length_app.
  cbn [List.length]. change (stuck_count []) with 0.
  split; [|lia]. apply Forall_app. split; [exact Halive|]. constructor; [exact Ha|constructor].
Qed.

Lemma tick_keeps_book (dt : number) (s s' : Session) (r r' : RandomSource) :
  Forall Arrow_ok (arrows s) ->
  update_simulation dt s r = Some (s', r') -> Arrows_book s -> Arrows_book s'.
Proof.
  intros Hok Htick (Halive & Hcount & Hscore & Hstreak).
  apply StepFacts.update_simulation_steps in Htick
    as (w & wind & l & sc & st & _ & _ & Hloop & ->).
  unfold Arrows_book. cbn [arrows shots_taken score streak].
  pose proof (StepFacts.arrows_loop_score _ _ _ _ _ _ _ _ Hloop) as (Hsc & Hmono & Hst).
  pose proof (CollisionFacts.arrows_loop_resolved _ _ _ _ _ _ _ _ Hloop) as Hrel.
  rewrite (StepFacts.prune_keeps_stuck_count dt (gravity s) wind (arrows s) Hok)
    in Hsc, Hmono, Hst.
  split.
  { clear - Hrel. remember (filter alive _) as l0 eqn:Hl0.
    assert (H0 : Forall (fun a => alive a = true) l0).
    { subst l0. apply Forall_forall. intros a Hin. apply filter_In in Hin. apply Hin. }
    clear Hl0. induction Hrel as [|a a' l0 l Hr _ IH]; [constructor|].
    apply Forall_cons_iff in H0 as [Ha H0]. constructor; [|auto].
    rewrite (CollisionFacts.resolved_alive _ _ Hr). exact Ha. }
  split.
  { rewrite <- (Forall2_length Hrel).
    pose proof (filter_length_le alive (map (Arrow_.update dt (gravity s) wind) (arrows s)))
      as Hle.
    rewrite length_map in Hle. lia. }
  split; [lia|]. specialize (Hst (proj1 Hstreak)). lia.
Qed.

Lemma arrows_inv_handle (e : Event) (s s' : Session) (r r' : RandomSource) :
  Arrows_inv s -> handle e s r = Some (s', r') -> Arrows_inv s'.
Proof.
  intros (Hok & Hpart) Hh. split; [exact (StepFacts.handle_keeps_ok e s s' r r' Hok Hh)|].
  destruct e; simpl in Hh.
  1-4: (injection Hh as <- _; apply (Arrows_book_ext s); auto).
  - injection Hh as <- _. unfold draw_press.
    destruct (negb (is_drawing s) && (shots_taken s <? max_shots s)); [|exact Hpart].
    apply (Arrows_book_ext s); auto.
  - unfold draw_release, lift in Hh. destruct (is_drawing s).
    + destruct (spawn_arrow (with_draw s false (draw_strength s))) as [s1|] eqn:Hs1;
        [|discriminate].
      injection Hh as <- _. apply (spawn_keeps_book _ _ Hs1).
      apply (Arrows_book_ext s); auto.
    + injection Hh as <- _. exact Hpart.
  - injection Hh as <- _. apply (Arrows_book_ext s); auto.
  - injection Hh as <- _. unfold Arrows_book.
    cbn [arrows shots_taken score streak reset_game List.length].
    change (stuck_count []) with 0. repeat split; try lia. constructor.
  - unfold lift in Hh. destruct (spawn_arrow s) as [s1|] eqn:Hs1; [|discriminate].
    injection Hh as <- _. exact (spawn_keeps_book _ _ Hs1 Hpart).
  - unfold render_animation in Hh. destruct animate.
    + apply (tick_keeps_book _ _ _ _ _) in Hh.
      * exact Hh.
      * destruct (is_drawing s); [|apply Hok]. apply Hok.
      * destruct (is_drawing s); [|exact Hpart]. apply (Arrows_book_ext s); auto.
    + injection Hh as <- _. exact Hpart.
Qed.

Lemma arrows_inv_reset : Arrows_inv reset_game.
Proof.
  split; [exact ok_reset|]. unfold Arrows_book.
  cbn [arrows shots_taken score streak reset_game List.length].
  change (stuck_count []) with 0. repeat split; try lia. constructor.
Qed.

Lemma arrows_inv_reached (es : list Event) (r : RandomSource) :
  exists s r', run es reset_game r = Some (s, r') /\ Arrows_inv s.
Proof.
  destruct (run_ok es reset_game r ok_reset) as (s & r' & Hrun & _).
  exists s, r'. split; [exact Hrun|].
  apply (StepFacts.run_preserves (fun _ => True) Arrows_inv) with (es := es)
    (s := reset_game) (r := r) (r' := r').
  - intros e s0 r0 s1 r1 _. apply arrows_inv_handle.
  - apply Forall_forall. auto.
  - exact arrows_inv_reset.
  - exact Hrun.
Qed.

(** X1: the live collection.  In every state that a session reaches from
    [reset_game], every arrow of the collection is alive (an arrow that
    drops below the ground is removed in the tick in which it dies), and
    the collection holds no more arrows than shots were taken, so at most
    twenty. *)
Theorem arrows_alive_and_counted (es : list Event) (r : RandomSource) :
  exists s r',
    run es reset_game r = Some (s, r') /\
    Forall (fun a => alive a = true) (arrows s) /\
    Z.of_nat (List.length (arrows s)) <= shots_taken s <= 20.
Proof.
  destruct (arrows_inv_reached es r) as (s & r' & Hrun & Hok & Halive & Hcount & _).
  exists s, r'. split; [exact Hrun|]. split; [exact Halive|].
  destruct Hok as (_ & Hshots & Hmax & _). lia.
Qed.

(** X2: score and streak.  In every state that a session reaches from
    [reset_game], the score lies between 0 and ten times the number of
    stuck arrows, hence is at most 200, and the streak lies between 0 and
    the number of stuck arrows. *)
Theorem score_covered_by_stuck_arrows (es : list Event) (r : RandomSource) :
  exists s r',
    run es reset_game r = Some (s, r') /\
    0 <= score s <= 10 * stuck_count (arrows s) /\
    score s <= 200 /\
    0 <= streak s <= stuck_count (arrows s).
Proof.
  destruct (arrows_inv_reached es r)
    as (s & r' & Hrun & Hok & _ & Hcount & Hscore & Hstreak).
  exists s, r'. split; [exact Hrun|]. split; [exact Hscore|]. split; [|exact Hstreak].
  destruct Hok as (_ & Hshots & Hmax & _).
  pose proof (StepFacts.stuck_count_length (arrows s)). lia.
Qed.

(** X3: the score never goes down.  Through every sequence of events
    without a reset, from any session, the score at the end is at least
    the score at the start. *)
Theorem score_never_decreases (es : list Event) (s s' : Session) (r r' : RandomSource) :
  no_reset es ->
  run es s r = Some (s', r') ->
  score s <= score s'.
Proof.
  intros Hnr Hrun.
  apply (StepFacts.run_preserves (fun e => e <> ResetGame) (fun s0 => score s <= score s0))
    with (es := es) (s := s) (r := r) (r' := r').
  - clear. intros e s0 r0 s1 r1 He Hle Hh. destruct e; simpl in Hh.
    1-4: (injection Hh as <- _; exact Hle).
    + injection Hh as <- _. unfold draw_press.
      destruct (negb (is_drawing s0) && (shots_taken s0 <? max_shots s0)); exact Hle.
    + unfold draw_release, lift in Hh. destruct (is_drawing s0).
      * destruct (spawn_arrow (with_draw s0 false (draw_strength s0))) as [s2|] eqn:Hs2;
          [|discriminate].
        injection Hh as <- _.
        apply StepFacts.spawn_arrow_inv in Hs2 as [(_ & ->)|(_ & a & _ & _ & _ & ->)];
          exact Hle.
      * injection Hh as <- _. exact Hle.
    + injection Hh as <- _. exact Hle.
    + congruence.
    + unfold lift in Hh. destruct (spawn_arrow s0) as [s2|] eqn:Hs2; [|discriminate].
      injection Hh as <- _.
      apply StepFacts.spawn_arrow_inv in Hs2 as [(_ & ->)|(_ & a & _ & _ & _ & ->)];
        exact Hle.
    + unfold render_animation in Hh. destruct animate.
      * apply StepFacts.update_simulation_steps in Hh
          as (w & wind & l & sc & st & _ & _ & Hloop & ->).
        pose proof (StepFacts.arrows_loop_score _ _ _ _ _ _ _ _ Hloop) as ((Hsc & _) & _).
        cbn [score]. destruct (is_drawing s0); cbn [score update_aim with_draw negb] in Hsc;
          lia.
      * injection Hh as <- _. exact Hle.
  - apply Forall_forall. intros e Hin ->. exact (Hnr Hin).
  - lia.
  - exact Hrun.
Qed.

End ArrowBook.

Lemma score_never_decreases_witness :
  match @run Examples.poly_trig [Frame true 40%float; CycleWeather; Frame true 16%float]
          MoreExamples.approaching Examples.halves with
  | Some (s', _) => score MoreExamples.approaching <= score s' /\ score s' = 10
  | None => False
  end.
Proof.
  destruct (@run Examples.poly_trig [Frame true 40%float; CycleWeather; Frame true 16%float]
              MoreExamples.approaching Examples.halves) as [[s' r']|] eqn:Hrun.
  - split.
    + apply (@score_never_decreases Examples.poly_trig _ _ _ _ _) with (2 := Hrun).
      unfold no_reset. simpl. intros [Hf|[Hf|[Hf|[]]]]; discriminate Hf.
    + vm_compute in Hrun. injection Hrun as <- _. reflexivity.
  - vm_compute in Hrun. discriminate Hrun.
Defined.

(** X4: a closer hit never scores less.  The points for a ring fraction are
    one of 10, 8, 6, 4, 2 and 0; a [NaN] fraction and a fraction beyond 1
    score 0; and of two fractions the smaller scores at least as much as
    the larger. *)
Theorem closer_scores_more :
  (forall frac : number,
     In (score_for_radius_fraction frac) [10; 8; 6; 4; 2; 0])
  /\ (forall frac : number,
        PrimFloat.is_nan frac = true -> score_for_radius_fraction frac = 0)
  /\ (forall frac : number,
        (1.0 <? frac)%float = true -> score_for_radius_fraction frac = 0)
  /\ (forall frac1 frac2 : number,
        (frac1 <=? frac2)%float = true ->
        score_for_radius_fraction frac2 <= score_for_radius_fraction frac1).
Proof.
  split.
  { intros frac. unfold score_for_radius_fraction, TARGET_SCORING. simpl.
    repeat match goal with |- context [if ?b then _ else _] => destruct b end;
      simpl; tauto. }
  assert (Hnone : forall frac,
            (forall t, (frac <=? t)%float = false) -> score_for_radius_fraction frac = 0).
  { intros frac Hno. unfold score_for_radius_fraction, TARGET_SCORING. simpl.
    rewrite !Hno. reflexivity. }
  split.
  { intros frac Hnan. apply Hnone. intros t.
    destruct (frac <=? t)%float eqn:Hle; [|reflexivity].
    destruct (FloatFacts.leb_true _ _ Hle) as (Hx & _). congruence. }
  split.
  { intros frac Hbig. unfold score_for_radius_fraction, TARGET_SCORING. simpl.
    assert (Hno : forall t, (t <=? 1.0)%float = true -> (frac <=? t)%float = false).
    { intros t Ht. destruct (frac <=? t)%float eqn:Hle; [|reflexivity].
      pose proof (FloatOrder.leb_trans _ _ _ Hle Ht) as Hle1.
      rewrite (FloatFacts.ltb_not_leb _ _ Hbig) in Hle1. discriminate Hle1. }
    rewrite !Hno by reflexivity. reflexivity. }
  intros frac1 frac2 Hle.
  assert (Hup : forall t, (frac2 <=? t)%float = true -> (frac1 <=? t)%float = true).
  { intros t. apply FloatOrder.leb_trans. exact Hle. }
  unfold score_for_radius_fraction, TARGET_SCORING. simpl.
  pose proof (Hup 0.2%float) as H1. pose proof (Hup 0.4%float) as H2.
  pose proof (Hup 0.6%float) as H3. pose proof (Hup 0.8%float) as H4.
  pose proof (Hup 1.0%float) as H5.
  destruct (frac2 <=? 0.2)%float; [rewrite (H1 eq_refl); reflexivity|].
  destruct (frac1 <=? 0.2)%float; [destruct (frac2 <=? 0.4)%float,
    (frac2 <=? 0.6)%float, (frac2 <=? 0.8)%float, (frac2 <=? 1.0)%float; discriminate|].
  destruct (frac2 <=? 0.4)%float; [rewrite (H2 eq_refl); reflexivity|].
  destruct (frac1 <=? 0.4)%float; [destruct
    (frac2 <=? 0.6)%float, (frac2 <=? 0.8)%float, (frac2 <=? 1.0)%float; discriminate|].
  destruct (frac2 <=? 0.6)%float; [rewrite (H3 eq_refl); reflexivity|].
  destruct (frac1 <=? 0.6)%float; [destruct
    (frac2 <=? 0.8)%float, (frac2 <=? 1.0)%float; discriminate|].
  destruct (frac2 <=? 0.8)%float; [rewrite (H4 eq_refl); reflexivity|].
  destruct (frac1 <=? 0.8)%float; [destruct (frac2 <=? 1.0)%float; discriminate|].
  destruct (frac2 <=? 1.0)%float; [rewrite (H5 eq_refl); reflexivity|].
  destruct (frac1 <=? 1.0)%float; [discriminate | reflexivity].
Qed.

Lemma closer_scores_more_witness :
  score_for_radius_fraction (0 / 0)%float = 0
  /\ score_for_radius_fraction 1.5%float = 0
  /\ score_for_radius_fraction 0.55%float <= score_for_radius_fraction 0.35%float.
Proof.
  destruct closer_scores_more as (_ & Hnan & Hbig & Hmono).
  split; [|split].
  - apply Hnan. reflexivity.
  - apply Hbig. reflexivity.
  - apply Hmono. reflexivity.
Defined.

(* ================================================================== *)
(** ** Targets and their centres *)
(* ================================================================== *)

Section Range.

Context `{Trig}.

Lemma at_rest_update (dt : number) (t : Target) : at_rest (Target_.update dt t) = at_rest t.
Proof. reflexivity. Qed.

Lemma range_inv_reset : Range_inv reset_game.
Proof. unfold Range_inv. simpl. auto 10. Qed.

Lemma range_inv_handle (e : Event) (s s' : Session) (r r' : RandomSource) :
  Range_inv s -> handle e s r = Some (s', r') -> Range_inv s'.
Proof.
  intros Hinv Hh.
  assert (Hsame : forall s1, targets s1 = targets s -> target_centers s1 = target_centers s ->
            gravity s1 = gravity s -> max_draw_strength s1 = max_draw_strength s ->
            aim_sensitivity s1 = aim_sensitivity s -> Range_inv s1).
  { unfold Range_inv. intros s1 -> -> -> -> ->. exact Hinv. }
  assert (Hspawn : forall s0 s1, Range_inv s0 -> spawn_arrow s0 = Some s1 -> Range_inv s1).
  { intros s0 s1 H0 Hs. apply StepFacts.spawn_arrow_inv in Hs
      as [(_ & ->)|(_ & a & _ & _ & _ & ->)]; exact H0. }
  destruct e; simpl in Hh.
  1-4: (injection Hh as <- _; apply Hsame; reflexivity).
  - injection Hh as <- _. unfold draw_press.
    destruct (negb (is_drawing s) && (shots_taken s <? max_shots s)); [|exact Hinv].
    apply Hsame; reflexivity.
  - unfold draw_release, lift in Hh. destruct (is_drawing s).
    + destruct (spawn_arrow (with_draw s false (draw_strength s))) as [s1|] eqn:Hs1;
        [|discriminate].
      injection Hh as <- _.
      apply (Hspawn (with_draw s false (draw_strength s)) s1); [|exact Hs1].
      apply Hsame; reflexivity.
    + injection Hh as <- _. exact Hinv.
  - injection Hh as <- _. apply Hsame; reflexivity.
  - injection Hh as <- _. exact range_inv_reset.
  - unfold lift in Hh. destruct (spawn_arrow s) as [s1|] eqn:Hs1; [|discriminate].
    injection Hh as <- _. exact (Hspawn _ _ Hinv Hs1).
  - unfold render_animation in Hh. destruct animate.
    + apply StepFacts.update_simulation_steps in Hh
        as (w & wind & l & sc & st & _ & _ & _ & ->).
      destruct Hinv as (Hts & _ & Hg & Hm & Ha).
      unfold Range_inv. cbn [targets target_centers gravity max_draw_strength aim_sensitivity].
      split.
      { destruct (is_drawing s); cbn [targets update_aim with_draw negb];
          rewrite map_map; rewrite <- Hts; apply map_ext; intros t; reflexivity. }
      split; [right; reflexivity|].
      destruct (is_drawing s);
        cbn [gravity max_draw_strength aim_sensitivity update_aim with_draw negb]; auto.
    + injection Hh as <- _. exact Hinv.
Qed.

Lemma range_inv_reached (es : list Event) (r : RandomSource) :
  exists s r', run es reset_game r = Some (s, r') /\ Range_inv s.
Proof.
  destruct (run_ok es reset_game r ok_reset) as (s & r' & Hrun & _).
  exists s, r'. split; [exact Hrun|].
  apply (StepFacts.run_preserves (fun _ => True) Range_inv) with (es := es)
    (s := reset_game) (r := r) (r' := r').
  - intros e s0 r0 s1 r1 _. apply range_inv_handle.
  - apply Forall_forall. auto.
  - exact range_inv_reset.
  - exact Hrun.
Qed.

(** X5: the range is fixed.  In every state that a session reaches from
    [reset_game] there are the same two targets, changed in nothing but
    their clocks: radii 2.5 and 3, planes at z = -40 and z = -60.  The
    stored centres are either absent (no tick since the reset) or exactly
    the centres of the targets as they now are, each on the plane of its
    target; gravity stays -15. *)
Theorem targets_fixed (es : list Event) (r : RandomSource) :
  exists s r',
    run es reset_game r = Some (s, r') /\
    map at_rest (targets s) = targets reset_game /\
    map radius (targets s) = [2.5%float; 3.0%float] /\
    map (fun t => v2 (base_center t)) (targets s) = [(-40)%float; (-60)%float] /\
    (target_centers s = [] \/
     (target_centers s = map Target_.get_center (targets s) /\
      map v2 (target_centers s) = [(-40)%float; (-60)%float])) /\
    gravity s = (-15)%float.
Proof.
  destruct (range_inv_reached es r) as (s & r' & Hrun & Hts & Hcs & Hg & _).
  exists s, r'. split; [exact Hrun|]. split; [exact Hts|].
  assert (Hr : map radius (targets s) = [2.5%float; 3.0%float]).
  { change [2.5%float; 3.0%float] with (map radius (targets reset_game)).
    rewrite <- Hts, map_map. apply map_ext. intros t; reflexivity. }
  assert (Hz : map (fun t => v2 (base_center t)) (targets s) = [(-40)%float; (-60)%float]).
  { change [(-40)%float; (-60)%float]
      with (map (fun t => v2 (base_center t)) (targets reset_game)).
    rewrite <- Hts, map_map. apply map_ext. intros t; reflexivity. }
  split; [exact Hr|]. split; [exact Hz|]. split; [|exact Hg].
  destruct Hcs as [Hc|Hc]; [left; exact Hc|]. right. split; [exact Hc|].
  rewrite Hc, map_map, <- Hz. apply map_ext. intros t; reflexivity.
Qed.

End Range.

Module CentreFacts.

Lemma arrows_loop_no_flight (centers : list vec3) (ts : list Target) (l : list Arrow) :
  forall (sc st : Z),
    (forall a, In a l -> alive a = false \/ stuck a = true) ->
    arrows_loop centers ts l sc st = Some (l, sc, st).
Proof.
  intros sc st Hno. apply CollisionFacts.arrows_loop_all_missed.
  intros a Hin Ha Hs. destruct (Hno a Hin); congruence.
Qed.

Lemma arrows_loop_no_centre (ts : list Target) (l : list Arrow) :
  forall (sc st : Z),
    ts <> [] ->
    (exists a, In a l /\ alive a = true /\ stuck a = false) ->
    arrows_loop [] ts l sc st = None.
Proof.
  intros sc st Hts. induction l as [|a rest IH]; intros (b & Hin & Hb & Hs).
  - destruct Hin.
  - cbn [arrows_loop]. destruct (negb (alive a) || stuck a) eqn:Hskip.
    + destruct Hin as [->|Hin].
      * rewrite Hb, Hs in Hskip. discriminate Hskip.
      * rewrite IH; [reflexivity|]. exists b. auto.
    + destruct ts as [|t ts']; [congruence|]. reflexivity.
Qed.

Section WithGraphics.

Context `{Graphics}.

Lemma rings_loop_length (center : vec3) (target : Target) (rs : list (number * string)) :
  forall layer, List.length (rings_loop center target layer rs) = List.length rs.
Proof.
  induction rs as [|[frac material] rest IH]; intros layer; simpl; [reflexivity|].
  rewrite IH. reflexivity.
Qed.

Lemma draw_targets_loop_some (centers : list vec3) (ts : list Target) :
  forall i,
    (i + List.length ts <= List.length centers)%nat ->
    exists calls,
      draw_targets_loop centers i ts = Some calls /\
      List.length calls = (6 * List.length ts)%nat.
Proof.
  induction ts as [|t rest IH]; intros i Hlen.
  - exists []. split; reflexivity.
  - cbn [draw_targets_loop]. cbn [List.length] in Hlen.
    destruct (nth_error centers i) as [c|] eqn:Hc.
    + destruct (IH (S i)) as (more & Hmore & Hn); [lia|].
      rewrite Hmore. unfold obind. eexists. split; [reflexivity|].
      cbn [List.length app]. rewrite length_app, rings_loop_length, Hn.
      cbn [List.length rings]. lia.
    + apply nth_error_None in Hc. lia.
Qed.

Lemma draw_targets_loop_none (centers : list vec3) (ts : list Target) :
  forall i,
    (i <= List.length centers)%nat ->
    (List.length centers < i + List.length ts)%nat ->
    draw_targets_loop centers i ts = None.
Proof.
  induction ts as [|t rest IH]; intros i Hi Hlen.
  - cbn [List.length] in Hlen. lia.
  - cbn [draw_targets_loop]. cbn [List.length] in Hlen.
    destruct (nth_error centers i) as [c|] eqn:Hc; [|reflexivity].
    assert (Hlt : (i < List.length centers)%nat).
    { apply nth_error_Some. congruence. }
    rewrite (IH (S i)); [reflexivity | lia | lia].
Qed.

End WithGraphics.

End CentreFacts.

(** X6: the resolver reads the stored centres.  With no arrow in flight the
    resolver returns the session as it is, whatever the centres.  With an
    arrow in flight, at least one target and no stored centres, as after a
    reset, it throws; with a centre stored for every target it returns. *)
Theorem resolver_needs_centres (s : Session) :
  ((forall a, In a (arrows s) -> alive a = false \/ stuck a = true) ->
   resolve_arrow_target_collisions s = Some s)
  /\ (targets s <> [] -> target_centers s = [] ->
      (exists a, In a (arrows s) /\ alive a = true /\ stuck a = false) ->
      resolve_arrow_target_collisions s = None)
  /\ ((List.length (targets s) <= List.length (target_centers s))%nat ->
      resolve_arrow_target_collisions s <> None).
Proof.
  split; [|split].
  - intros Hno. unfold resolve_arrow_target_collisions, obind.
    rewrite (CentreFacts.arrows_loop_no_flight _ _ _ _ _ Hno). destruct s; reflexivity.
  - intros Hts Hcs Hfly. unfold resolve_arrow_target_collisions, obind.
    rewrite Hcs, (CentreFacts.arrows_loop_no_centre _ _ _ _ Hts Hfly). reflexivity.
  - intros Hlen. destruct (resolve_spec s Hlen) as (l & sc & st & _ & Hr & _).
    rewrite Hr. discriminate.
Qed.

Lemma resolver_needs_centres_witness :
  resolve_arrow_target_collisions reset_game = Some reset_game
  /\ resolve_arrow_target_collisions MoreExamples.first_flight = None
  /\ resolve_arrow_target_collisions
       (@update_targets Examples.poly_trig 0.03125%float MoreExamples.first_flight)
     <> None.
Proof.
  split; [|split].
  - apply (resolver_needs_centres reset_game). intros a Hin. destruct Hin.
  - apply (resolver_needs_centres MoreExamples.first_flight).
    + discriminate.
    + reflexivity.
    + exists Examples.on_axis. split; [left; reflexivity|]. split; reflexivity.
  - apply (resolver_needs_centres
             (@update_targets Examples.poly_trig 0.03125%float MoreExamples.first_flight)).
    simpl. lia.
Defined.

Section TargetDrawing.

Context `{Trig} `{Graphics}.

(** X7: drawing the targets reads the stored centres.  [draw_targets]
    throws when fewer centres are stored than there are targets and
    otherwise issues six draw calls per target (a post and five rings).
    After [update_targets] it never throws; in a state that a session
    reaches from [reset_game] it throws exactly when no centres are
    stored, that is when no tick has run since the reset. *)
Theorem draw_targets_needs_centres :
  (forall s : Session,
     (List.length (target_centers s) < List.length (targets s))%nat ->
     draw_targets s = None)
  /\ (forall s : Session,
        (List.length (targets s) <= List.length (target_centers s))%nat ->
        exists calls,
          draw_targets s = Some calls /\
          List.length calls = (6 * List.length (targets s))%nat)
  /\ (forall (dt : number) (s : Session), draw_targets (update_targets dt s) <> None)
  /\ (forall (es : list Event) (r : RandomSource),
        exists s r',
          run es reset_game r = Some (s, r') /\
          (draw_targets s = None <-> target_centers s = [])).
Proof.
  split; [|split; [|split]].
  - intros s Hlt. unfold draw_targets.
    apply CentreFacts.draw_targets_loop_none; lia.
  - intros s Hle. unfold draw_targets.
    apply CentreFacts.draw_targets_loop_some. lia.
  - intros dt s. unfold draw_targets.
    destruct (CentreFacts.draw_targets_loop_some (target_centers (update_targets dt s))
                (targets (update_targets dt s)) 0) as (calls & Hc & _).
    { rewrite update_targets_lengths. lia. }
    rewrite Hc. discriminate.
  - intros es r. destruct (range_inv_reached es r) as (s & r' & Hrun & Hts & Hcs & _).
    exists s, r'. split; [exact Hrun|].
    assert (Hlen : List.length (targets s) = 2%nat).
    { rewrite <- (length_map at_rest), Hts. reflexivity. }
    unfold draw_targets. destruct Hcs as [Hc|Hc].
    + split; [intros _; exact Hc|]. intros _. rewrite Hc.
      apply CentreFacts.draw_targets_loop_none; simpl; lia.
    + destruct (CentreFacts.draw_targets_loop_some (target_centers s) (targets s) 0)
        as (calls & Hd & _).
      { rewrite Hc, length_map. lia. }
      rewrite Hd. split; [discriminate|]. intros Hnil.
      rewrite Hnil in Hc. symmetry in Hc. apply map_eq_nil in Hc.
      rewrite Hc in Hlen. discriminate Hlen.
Qed.

End TargetDrawing.

Lemma draw_targets_needs_centres_witness :
  @draw_targets MoreExamples.symbolic_graphics reset_game = None
  /\ exists calls,
       @draw_targets MoreExamples.symbolic_graphics
         (@update_targets Examples.poly_trig 0.03125%float reset_game) = Some calls /\
       List.length calls = 12%nat.
Proof.
  destruct (@draw_targets_needs_centres Examples.poly_trig MoreExamples.symbolic_graphics)
    as (Hnone & Hsome & _).
  split.
  - apply Hnone. simpl. lia.
  - apply (Hsome (@update_targets Examples.poly_trig 0.03125%float reset_game)).
    simpl. lia.
Defined.

(* ================================================================== *)
(** ** The draw key, the charge and the aim *)
(* ================================================================== *)

Section Controls.

Context `{Trig}.

Lemma ready_inv_handle (e : Event) (s s' : Session) (r r' : RandomSource) :
  e <> Fire -> Ready_inv s -> handle e s r = Some (s', r') -> Ready_inv s'.
Proof.
  intros He (Hok & Hready) Hh.
  split; [exact (StepFacts.handle_keeps_ok e s s' r r' Hok Hh)|].
  destruct e; simpl in Hh.
  1-4: (injection Hh as <- _; exact Hready).
  - injection Hh as <- _. unfold draw_press.
    destruct (negb (is_drawing s) && (shots_taken s <? max_shots s)) eqn:Hc;
      [|exact Hready].
    apply andb_true_iff in Hc as [_ Hlt]. intros _. cbn [shots_taken max_shots with_draw].
    lia.
  - unfold draw_release, lift in Hh. destruct (is_drawing s) eqn:Hd.
    + destruct (spawn_arrow (with_draw s false (draw_strength s))) as [s1|] eqn:Hs1;
        [|discriminate].
      injection Hh as <- _.
      apply StepFacts.spawn_arrow_inv in Hs1 as [(_ & ->)|(_ & a & _ & _ & _ & ->)];
        cbn [is_drawing with_draw]; discriminate.
    + injection Hh as <- _. rewrite Hd. discriminate.
  - injection Hh as <- _. exact Hready.
  - injection Hh as <- _. cbn [is_drawing reset_game]. discriminate.
  - congruence.
  - unfold render_animation in Hh. destruct animate.
    + apply StepFacts.update_simulation_steps in Hh
        as (w & wind & l & sc & st & _ & _ & _ & ->).
      cbn [is_drawing shots_taken max_shots].
      destruct (is_drawing s) eqn:Hd;
        cbn [is_drawing shots_taken max_shots update_aim with_draw negb];
        [intros _; exact (Hready eq_refl) | rewrite Hd; discriminate].
    + injection Hh as <- _. exact Hready.
Qed.

(** X8: the draw key.  A key press while the bow is drawn (key repeat) or
    with no shot left changes nothing, so pressing twice is pressing once;
    a release while the bow is not drawn changes nothing.  Through the
    controls and frames of a session, whenever the bow is drawn a shot is
    left, so that the release fires: it appends one arrow and counts one
    shot. *)
Theorem draw_key_protocol :
  (forall s : Session, is_drawing s = true -> draw_press s = s)
  /\ (forall s : Session, max_shots s <= shots_taken s -> draw_press s = s)
  /\ (forall s : Session, draw_press (draw_press s) = draw_press s)
  /\ (forall s : Session, is_drawing s = false -> draw_release s = Some s)
  /\ (forall (es : list Event) (r : RandomSource),
        no_fire es ->
        exists s r',
          run es reset_game r = Some (s, r') /\
          (is_drawing s = true ->
           shots_taken s < max_shots s /\
           exists s' a,
             draw_release s = Some s' /\
             arrows s' = arrows s ++ [a] /\
             shots_taken s' = shots_taken s + 1 /\
             is_drawing s' = false)).
Proof.
  split; [|split; [|split; [|split]]].
  - intros s Hd. unfold draw_press. rewrite Hd. reflexivity.
  - intros s Hfull. unfold draw_press.
    destruct (shots_taken s <? max_shots s) eqn:Hlt; [lia|].
    rewrite andb_false_r. reflexivity.
  - intros s. unfold draw_press.
    destruct (negb (is_drawing s) && (shots_taken s <? max_shots s)) eqn:Hc.
    + reflexivity.
    + rewrite Hc. reflexivity.
  - intros s Hd. unfold draw_release. rewrite Hd. reflexivity.
  - intros es r Hnf.
    destruct (run_ok es reset_game r ok_reset) as (s & r' & Hrun & Hok & _).
    exists s, r'. split; [exact Hrun|]. intros Hd.
    assert (Hready : Ready_inv s).
    { apply (StepFacts.run_preserves (fun e => e <> Fire) Ready_inv) with (es := es)
        (s := reset_game) (r := r) (r' := r').
      - intros e s0 r0 s1 r1. apply ready_inv_handle.
      - apply Forall_forall. intros e Hin ->. exact (Hnf Hin).
      - split; [exact ok_reset|]. cbn [is_drawing reset_game]. discriminate.
      - exact Hrun. }
    destruct Hready as (_ & Hready). specialize (Hready Hd). split; [exact Hready|].
    unfold draw_release. rewrite Hd.
    destruct Hok as (Hw & _).
    destruct (spawn_arrow_spec (with_draw s false (draw_strength s)) Hw)
      as (s' & Hs' & [(Hfull & _)|(_ & a & _ & _ & ->)]).
    + cbn [shots_taken max_shots with_draw] in Hfull. lia.
    + eexists _, a. split; [exact Hs'|]. split; [|split]; reflexivity.
Qed.

Lemma charge_inv_handle (e : Event) (s s' : Session) (r r' : RandomSource) :
  Charge_inv s -> handle e s r = Some (s', r') -> Charge_inv s'.
Proof.
  intros Hinv Hh.
  assert (Hsame : forall s1, draw_strength s1 = draw_strength s ->
            max_draw_strength s1 = max_draw_strength s -> Charge_inv s1).
  { unfold Charge_inv. intros s1 -> ->. exact Hinv. }
  assert (Hspawn : forall s0 s1, Charge_inv s0 -> spawn_arrow s0 = Some s1 -> Charge_inv s1).
  { intros s0 s1 H0 Hs. apply StepFacts.spawn_arrow_inv in Hs
      as [(_ & ->)|(_ & a & _ & _ & _ & ->)]; exact H0. }
  destruct e; simpl in Hh.
  1-4: (injection Hh as <- _; apply Hsame; reflexivity).
  - injection Hh as <- _. unfold draw_press.
    destruct (negb (is_drawing s) && (shots_taken s <? max_shots s)); [|exact Hinv].
    destruct Hinv as (Hm & _). split; [exact Hm|]. right. reflexivity.
  - unfold draw_release, lift in Hh. destruct (is_drawing s).
    + destruct (spawn_arrow (with_draw s false (draw_strength s))) as [s1|] eqn:Hs1;
        [|discriminate].
      injection Hh as <- _.
      apply (Hspawn (with_draw s false (draw_strength s)) s1); [|exact Hs1].
      apply Hsame; reflexivity.
    + injection Hh as <- _. exact Hinv.
  - injection Hh as <- _. apply Hsame; reflexivity.
  - injection Hh as <- _. split; [reflexivity|]. right. reflexivity.
  - unfold lift in Hh. destruct (spawn_arrow s) as [s1|] eqn:Hs1; [|discriminate].
    injection Hh as <- _. exact (Hspawn _ _ Hinv Hs1).
  - unfold render_animation in Hh. destruct animate.
    + apply StepFacts.update_simulation_steps in Hh
        as (w & wind & l & sc & st & _ & _ & _ & ->).
      unfold Charge_inv. cbn [draw_strength max_draw_strength].
      destruct (is_drawing s); [|exact Hinv].
      destruct Hinv as (Hm & _).
      cbn [draw_strength max_draw_strength update_aim with_draw negb].
      split; [exact Hm|]. rewrite Hm.
      destruct (PrimFloat.is_nan
                  (Math_min GAME_CONFIG.maxDrawStrength
                     (draw_strength s
                      + GAME_CONFIG.drawChargeRate * frame_dt animation_delta_time)%float))
        eqn:Hnan; [left; reflexivity|].
      right. apply FloatOrder.Math_min_lower. exact Hnan.
    + injection Hh as <- _. exact Hinv.
Qed.

(** X9: the charge is capped.  [update_aim] while the key is held leaves a
    charge that is [NaN] or at most [max_draw_strength], and does nothing
    while the key is not held; in every state that a session reaches from
    [reset_game] the charge is [NaN] or at most 1. *)
Theorem charge_capped :
  (forall (s : Session) (dt : number),
     PrimFloat.is_nan (draw_strength (update_aim true dt s)) = false ->
     (draw_strength (update_aim true dt s) <=? max_draw_strength s)%float = true)
  /\ (forall (s : Session) (dt : number), update_aim false dt s = s)
  /\ (forall (es : list Event) (r : RandomSource),
        exists s r',
          run es reset_game r = Some (s, r') /\
          (PrimFloat.is_nan (draw_strength s) = true \/
           (draw_strength s <=? 1)%float = true)).
Proof.
  split; [|split].
  - intros s dt Hnan. cbn [draw_strength update_aim with_draw negb] in *.
    apply FloatOrder.Math_min_lower. exact Hnan.
  - intros s dt. reflexivity.
  - intros es r.
    destruct (run_ok es reset_game r ok_reset) as (s & r' & Hrun & _).
    exists s, r'. split; [exact Hrun|].
    assert (Hinv : Charge_inv s).
    { apply (StepFacts.run_preserves (fun _ => True) Charge_inv) with (es := es)
        (s := reset_game) (r := r) (r' := r').
      - intros e s0 r0 s1 r1 _. apply charge_inv_handle.
      - apply Forall_forall. auto.
      - split; [reflexivity|]. right. reflexivity.
      - exact Hrun. }
    exact (proj2 Hinv).
Qed.

(** X10: the pitch is clamped on the side it moves to.  After [Aim Up] the
    pitch is [NaN] or at most 0.4, after [Aim Down] it is [NaN] or at
    least -0.4; neither touches the yaw, and [Aim Left] and [Aim Right]
    do not touch the pitch. *)
Theorem pitch_clamped (s : Session) :
  (PrimFloat.is_nan (aim_pitch (aim_up s)) = false ->
   (aim_pitch (aim_up s) <=? 0.4)%float = true)
  /\ (PrimFloat.is_nan (aim_pitch (aim_down s)) = false ->
      ((-0.4) <=? aim_pitch (aim_down s))%float = true)
  /\ aim_yaw (aim_up s) = aim_yaw s
  /\ aim_yaw (aim_down s) = aim_yaw s
  /\ aim_pitch (aim_left s) = aim_pitch s
  /\ aim_pitch (aim_right s) = aim_pitch s.
Proof.
  split; [|split; [|repeat split]].
  - intros Hnan. cbn [aim_pitch aim_up with_aim] in *.
    apply FloatOrder.Math_min_lower. exact Hnan.
  - intros Hnan. cbn [aim_pitch aim_down with_aim] in *.
    apply FloatOrder.Math_max_upper. exact Hnan.
Qed.

End Controls.

Lemma draw_key_protocol_witness :
  draw_press Examples.charged = Examples.charged
  /\ draw_press Examples.spent = Examples.spent
  /\ @draw_release Examples.poly_trig reset_game = Some reset_game
  /\ exists s r',
       @run Examples.poly_trig [DrawPress; Frame true 16%float; DrawPress]
         reset_game Examples.halves = Some (s, r') /\
       (is_drawing s = true ->
        shots_taken s < max_shots s /\
        exists s' a,
          @draw_release Examples.poly_trig s = Some s' /\
          arrows s' = arrows s ++ [a] /\
          shots_taken s' = shots_taken s + 1 /\
          is_drawing s' = false).
Proof.
  destruct (@draw_key_protocol Examples.poly_trig) as (Hrep & Hfull & _ & Hrel & Hrun).
  split; [|split; [|split]].
  - apply Hrep. reflexivity.
  - apply Hfull. simpl. lia.
  - apply Hrel. reflexivity.
  - apply Hrun. unfold no_fire. simpl. intros [Hf|[Hf|[Hf|[]]]]; discriminate Hf.
Defined.

Lemma charge_capped_witness :
  (draw_strength (update_aim true 2%float Examples.charged)
     <=? max_draw_strength Examples.charged)%float = true.
Proof.
  destruct (@charge_capped Examples.poly_trig) as (Hcap & _).
  apply Hcap. reflexivity.
Defined.

Lemma pitch_clamped_witness :
  (aim_pitch (aim_up (with_aim reset_game 0%float 0.39%float)) <=? 0.4)%float = true
  /\ ((-0.4) <=? aim_pitch (aim_down (with_aim reset_game 0%float (-0.39)%float)))%float
     = true.
Proof.
  split.
  - apply (pitch_clamped (with_aim reset_game 0%float 0.39%float)). reflexivity.
  - apply (pitch_clamped (with_aim reset_game 0%float (-0.39)%float)). reflexivity.
Defined.

(* ================================================================== *)
(** ** Particles *)
(* ================================================================== *)

Module ParticleFacts.

Lemma age_all_fresh (dt : number) (ps : list Particle) :
  Forall fresh_particle (Weather.age_all dt ps).
Proof.
  induction ps as [|p rest IH]; simpl; [constructor|].
  unfold Weather.age_particle.
  destruct (p_life p <? p_age p + dt)%float eqn:Hold; [exact IH|].
  destruct (v1 (V.plus (p_pos p) (V.times (p_vel p) dt)) <? -5)%float eqn:Hlow; [exact IH|].
  constructor; [|exact IH]. split; assumption.
Qed.

Lemma spawn_particle_grows (w w' : WeatherSystem) (r r' : RandomSource) :
  Weather.spawn_particle w r = Some (w', r') ->
  (List.length (particles w') <= S (List.length (particles w)))%nat /\
  current_index w' = current_index w /\
  weather_types w' = weather_types w /\
  max_particles w' = max_particles w.
Proof.
  unfold Weather.spawn_particle, bind, lift.
  destruct (Weather.preset w) as [p|]; [|discriminate].
  destruct (particle p) as [tpl|].
  - destruct (max_particles w <=? List.length (particles w))%nat.
    + intros [= <- _]. auto.
    + unfold sample, ret. simpl. intros [= <- _]. simpl.
      rewrite length_app. simpl. split; [lia | auto].
  - intros [= <- _]. auto.
Qed.

Lemma spawn_loop_grows (count : nat) :
  forall (w w' : WeatherSystem) (r r' : RandomSource),
    Weather.spawn_loop count w r = Some (w', r') ->
    (List.length (particles w') <= List.length (particles w) + count)%nat /\
    current_index w' = current_index w /\
    weather_types w' = weather_types w /\
    max_particles w' = max_particles w.
Proof.
  induction count as [|n IH]; simpl; intros w w' r r' Hs.
  - injection Hs as <- _. split; [lia | auto].
  - unfold bind in Hs.
    destruct (Weather.spawn_particle w r) as [[w1 r1]|] eqn:H1; [|discriminate].
    apply spawn_particle_grows in H1 as (Hl1 & Hi1 & Ht1 & Hm1).
    apply IH in Hs as (Hl & Hi & Ht & Hm).
    split; [lia|]. split; [congruence|]. split; congruence.
Qed.

Lemma clear_inv_update (dt : number) (w w' : WeatherSystem) (r r' : RandomSource) :
  Clear_inv w -> Weather.update dt w r = Some (w', r') -> Clear_inv w'.
Proof.
  intros (Hok & Hclear) Hu.
  destruct (WeatherFacts.update_spec dt w r Hok) as (w1 & r1 & Hu1 & Hok1 & Hi1).
  rewrite Hu in Hu1. injection Hu1 as <- <-.
  split; [exact Hok1|]. intros H0. rewrite Hi1 in H0. specialize (Hclear H0).
  destruct Hok as (Ht & _). revert Hu.
  unfold Weather.update, Weather.preset, Weather.type, bind, lift. rewrite Ht, H0. simpl.
  unfold ret. intros [= <- _]. simpl. rewrite Hclear. reflexivity.
Qed.

Lemma clear_inv_cycle (w : WeatherSystem) : Clear_inv w -> Clear_inv (Weather.cycle_type w).
Proof.
  intros (Hok & _). split; [apply WeatherFacts.cycle_type_ok; exact Hok|].
  rewrite (WeatherFacts.cycle_type_fields w Hok).
  cbn [particles current_index]. destruct Hok as (_ & Hi & _).
  destruct (current_index w) as [|[|[|[|n]]]]; try lia; simpl; congruence.
Qed.

End ParticleFacts.

Section Sky.

Context `{Trig}.

Lemma clear_inv_handle (e : Event) (s s' : Session) (r r' : RandomSource) :
  Clear_inv (weather s) -> handle e s r = Some (s', r') -> Clear_inv (weather s').
Proof.
  intros Hinv Hh.
  assert (Hspawn : forall s0 s1, Clear_inv (weather s0) -> spawn_arrow s0 = Some s1 ->
                                 Clear_inv (weather s1)).
  { intros s0 s1 H0 Hs. apply StepFacts.spawn_arrow_inv in Hs
      as [(_ & ->)|(_ & a & _ & _ & _ & ->)]; exact H0. }
  destruct e; simpl in Hh.
  1-4: (injection Hh as <- _; exact Hinv).
  - injection Hh as <- _. unfold draw_press.
    destruct (negb (is_drawing s) && (shots_taken s <? max_shots s)); exact Hinv.
  - unfold draw_release, lift in Hh. destruct (is_drawing s).
    + destruct (spawn_arrow (with_draw s false (draw_strength s))) as [s1|] eqn:Hs1;
        [|discriminate].
      injection Hh as <- _.
      exact (Hspawn (with_draw s false (draw_strength s)) s1 Hinv Hs1).
    + injection Hh as <- _. exact Hinv.
  - injection Hh as <- _. apply ParticleFacts.clear_inv_cycle. exact Hinv.
  - injection Hh as <- _. split; [exact WeatherFacts.ok_new | reflexivity].
  - unfold lift in Hh. destruct (spawn_arrow s) as [s1|] eqn:Hs1; [|discriminate].
    injection Hh as <- _. exact (Hspawn _ _ Hinv Hs1).
  - unfold render_animation in Hh. destruct animate.
    + apply StepFacts.update_simulation_steps in Hh
        as (w & wind & l & sc & st & Hw & _ & _ & ->).
      cbn [weather].
      apply (ParticleFacts.clear_inv_update _ _ _ _ _) with (2 := Hw).
      destruct (is_drawing s); exact Hinv.
    + injection Hh as <- _. exact Hinv.
Qed.

(** X11: a clear sky is empty.  In every state that a session reaches from
    [reset_game], when the current preset is clear there is no particle;
    so the early return of [WeatherSystem.draw] under clear skips nothing,
    and [draw] issues one call per particle. *)
Theorem clear_sky_is_empty (es : list Event) (r : RandomSource) :
  exists s r',
    run es reset_game r = Some (s, r') /\
    (Weather.type (weather s) = Some "clear"%string -> particles (weather s) = []) /\
    (forall (G : Graphics) (material : string),
       List.length (Weather_draw (weather s) material)
       = List.length (particles (weather s))).
Proof.
  destruct (run_ok es reset_game r ok_reset) as (s & r' & Hrun & _).
  exists s, r'. split; [exact Hrun|].
  assert (Hinv : Clear_inv (weather s)).
  { apply (StepFacts.run_preserves (fun _ => True) (fun s0 => Clear_inv (weather s0)))
      with (es := es) (s := reset_game) (r := r) (r' := r').
    - intros e s0 r0 s1 r1 _. apply clear_inv_handle.
    - apply Forall_forall. auto.
    - split; [exact WeatherFacts.ok_new | reflexivity].
    - exact Hrun. }
  destruct Hinv as ((Ht & Hi & _) & Hclear).
  assert (Hc : Weather.type (weather s) = Some "clear"%string -> particles (weather s) = []).
  { intros Hty. apply Hclear. unfold Weather.type in Hty. rewrite Ht in Hty.
    destruct (current_index (weather s)) as [|[|[|[|n]]]]; try lia;
      try reflexivity; simpl in Hty; discriminate Hty. }
  split; [exact Hc|]. intros G material. unfold Weather_draw, Weather.type_is_clear.
  destruct (Weather.type (weather s)) as [name|] eqn:Hty.
  - destruct (String.eqb name "clear") eqn:Hn.
    + apply String.eqb_eq in Hn. subst name. rewrite (Hc eq_refl). reflexivity.
    + apply length_map.
  - apply length_map.
Qed.

End Sky.

(** X12: an update leaves live particles only.  After [update(dt)] no
    particle of the collection has an age above its life span or a height
    below -5, and the collection has grown by at most [spawnPerFrame] of
    the current preset. *)
Theorem update_leaves_fresh_particles
    (dt : number) (w w' : WeatherSystem) (r r' : RandomSource) :
  Weather.update dt w r = Some (w', r') ->
  Forall fresh_particle (particles w') /\
  exists preset,
    Weather.preset w = Some preset /\
    (List.length (particles w') <= List.length (particles w) + spawnPerFrame preset)%nat.
Proof.
  unfold Weather.update, bind, lift.
  destruct (Weather.preset w) as [p|]; [|discriminate].
  destruct (Weather.spawn_loop (spawnPerFrame p) w r) as [[w1 r1]|] eqn:Hs; [|discriminate].
  unfold ret. intros [= <- _]. cbn [particles].
  split; [apply ParticleFacts.age_all_fresh|].
  exists p. split; [reflexivity|].
  apply ParticleFacts.spawn_loop_grows in Hs as (Hl & _).
  pose proof (WeatherFacts.age_all_length dt (particles w1)). lia.
Qed.

Lemma update_leaves_fresh_particles_witness :
  match Weather.update 2%float Examples.snowing Examples.halves with
  | Some (w', _) =>
      Forall fresh_particle (particles w') /\
      exists preset,
        Weather.preset Examples.snowing = Some preset /\
        (List.length (particles w')
         <= List.length (particles Examples.snowing) + spawnPerFrame preset)%nat
  | None => False
  end.
Proof.
  destruct (Weather.update 2%float Examples.snowing Examples.halves) as [[w' r']|] eqn:Hu.
  - exact (update_leaves_fresh_particles _ _ _ _ _ Hu).
  - vm_compute in Hu. discriminate Hu.
Defined.

(* ================================================================== *)
(** ** Arrows in flight *)
(* ================================================================== *)

Module FlightFacts.




(** The preview loop and the flight of an arrow agree step by step, under
    the gravity of the game and a wind without a vertical part. *)
Lemma trajectory_is_flight (n : nat) (w0 w2 : number) :
  forall (p prev v : vec3),
    trajectory_loop n (Vec3 w0 0%float w2) GAME_CONFIG.gravity p v =
    map pos (flight n 0.1%float GAME_CONFIG.gravity (Vec3 w0 0%float w2)
               (mkArrow p prev v true false)).
Proof.
  induction n as [|n IH]; intros p prev v; [reflexivity|].
  cbn [trajectory_loop flight].
  unfold Arrow_.update. cbn [alive stuck negb orb pos vel v0 v1 v2].
  change (V.times {| v0 := w0; v1 := (GAME_CONFIG.gravity + 0)%float; v2 := w2 |}
            0.1%float)
    with (Vec3 (w0 * 0.1)%float (GAME_CONFIG.gravity * 0.1 + 0 * 0.1)%float
               (w2 * 0.1)%float).
  destruct (v1 _ <? -2)%float; [reflexivity|].
  cbn [map pos]. f_equal. apply IH.
Qed.

End FlightFacts.

Section Flight.

Context `{Trig}.


(** X14: a tick leaves the controls alone.  [update_simulation] changes
    neither the shot count, the budget, the aim, the draw state, the
    charge, gravity nor the preset index, and keeps the targets up to
    their clocks, with one centre stored per target; a frame with the
    animation paused changes nothing and draws no random sample. *)
Theorem tick_leaves_controls (dt : number) (s s' : Session) (r r' : RandomSource) :
  update_simulation dt s r = Some (s', r') ->
  shots_taken s' = shots_taken s /\
  max_shots s' = max_shots s /\
  aim_yaw s' = aim_yaw s /\
  aim_pitch s' = aim_pitch s /\
  aim_sensitivity s' = aim_sensitivity s /\
  is_drawing s' = is_drawing s /\
  draw_strength s' = draw_strength s /\
  max_draw_strength s' = max_draw_strength s /\
  gravity s' = gravity s /\
  current_index (weather s') = current_index (weather s) /\
  map at_rest (targets s') = map at_rest (targets s) /\
  List.length (target_centers s') = List.length (targets s') /\
  (forall ms, render_animation false ms s r = Some (s, r)).
Proof.
  intros Htick.
  apply StepFacts.update_simulation_steps in Htick
    as (w & wind & l & sc & st & Hw & _ & _ & ->).
  cbn [shots_taken max_shots aim_yaw aim_pitch aim_sensitivity is_drawing draw_strength
       max_draw_strength gravity weather targets target_centers].
  repeat (split; [reflexivity|]).
  split.
  { revert Hw. unfold Weather.update, bind, lift.
    destruct (Weather.preset (weather s)) as [p|]; [|discriminate].
    destruct (Weather.spawn_loop (spawnPerFrame p) (weather s) r) as [[w1 r1]|] eqn:Hs;
      [|discriminate].
    unfold ret. intros [= <- _]. cbn [current_index].
    apply ParticleFacts.spawn_loop_grows in Hs. apply Hs. }
  split.
  { rewrite map_map. apply map_ext. intros t. reflexivity. }
  split; [rewrite !length_map; reflexivity|].
  intros ms. reflexivity.
Qed.

Context `{Graphics}.

(** X15: the preview shows the arrow that would be shot.  While the bow is
    drawn, under the gravity of the game, [draw_trajectory] draws its
    dots at the positions that the arrow [spawn_arrow] would append now
    takes under [Arrow.update] with a time step of 0.1, for at most twenty
    steps and until the arrow dies; while the bow is not drawn it draws
    nothing. *)
Theorem trajectory_preview_is_flight (s : Session) (wind : vec3) :
  gravity s = GAME_CONFIG.gravity ->
  get_weather_wind_vector s = Some wind ->
  let a :=
    Arrow_.new
      (V.plus get_player_origin
         (V.times (current_aim_direction s) GAME_CONFIG.arrowSpawnForward))
      (V.plus (V.times (current_aim_direction s) (compute_arrow_speed s)) wind) in
  (shots_taken s < max_shots s ->
   exists s', spawn_arrow s = Some s' /\ arrows s' = arrows s ++ [a])
  /\ (is_drawing s = true ->
      draw_trajectory s =
        Some (map (fun p =>
                     mkDraw "dot"%string
                       (Mat4_times (Mat4_translation (v0 p) (v1 p) (v2 p))
                                   (Mat4_scale 0.1%float 0.1%float 0.1%float))
                       (mkMaterial "dot"%string None))
                (map pos (flight 20 0.1%float (gravity s) wind a))))
  /\ (is_drawing s = false -> draw_trajectory s = Some []).
Proof.
  intros Hg Hwind a. split; [|split].
  - intros Hroom. unfold spawn_arrow.
    destruct (shots_taken s >=? max_shots s) eqn:Hb; [lia|].
    rewrite Hwind. simpl. eexists. split; reflexivity.
  - intros Hd. unfold draw_trajectory. rewrite Hd, Hwind. cbn [negb obind].
    do 2 f_equal. rewrite Hg.
    assert (Hw : exists w0 w2, wind = Vec3 w0 0%float w2).
    { revert Hwind. unfold get_weather_wind_vector, obind.
      destruct (Weather.preset (weather s)); [|discriminate].
      intros [= <-]. eexists _, _. reflexivity. }
    destruct Hw as (w0 & w2 & ->).
    apply FlightFacts.trajectory_is_flight.
  - intros Hd. unfold draw_trajectory. rewrite Hd. reflexivity.
Qed.

End Flight.


Lemma tick_leaves_controls_witness :
  match @update_simulation Examples.poly_trig 0.03125%float Examples.charged
          Examples.halves with
  | Some (s', _) =>
      shots_taken s' = 0 /\ is_drawing s' = true /\ draw_strength s' = 0.5%float
  | None => False
  end.
Proof.
  destruct (@update_simulation Examples.poly_trig 0.03125%float Examples.charged
              Examples.halves) as [[s' r']|] eqn:Ht.
  - destruct (@tick_leaves_controls Examples.poly_trig _ _ _ _ _ Ht)
      as (Hs & _ & _ & _ & _ & Hd & Hc & _).
    rewrite Hs, Hd, Hc. repeat split.
  - vm_compute in Ht. discriminate Ht.
Defined.

Lemma trajectory_preview_is_flight_witness :
  @draw_trajectory Examples.poly_trig MoreExamples.symbolic_graphics Examples.charged
  = Some (map (fun p =>
                 @mkDraw MoreExamples.symbolic_graphics "dot"%string
                   [("translation"%string, p);
                    ("scale"%string, Vec3 0.1%float 0.1%float 0.1%float)]
                   (mkMaterial "dot"%string None))
            (map pos
               (flight 20 0.1%float (-15)%float (Vec3 0%float 0%float 0%float)
                  (Arrow_.new (Vec3 0%float 2%float (-1)%float)
                              (Vec3 0%float 0%float (-36.000000000000007)%float))))).
Proof.
  destruct (@trajectory_preview_is_flight Examples.poly_trig
              MoreExamples.symbolic_graphics Examples.charged
              (Vec3 0%float 0%float 0%float))
    as (_ & Hdraw & _).
  - reflexivity.
  - reflexivity.
  - rewrite (Hdraw eq_refl). vm_compute. reflexivity.
Defined.

(* ================================================================== *)
(** ** Missing presets *)
(* ================================================================== *)


